(** * Weather Watch: the forecast store, the weather client and the storage
      helpers, embedded from [src/App.vue], [services/weatherService.ts] and
      [storage.ts], with the properties of the specification proved or
      refuted on the embedding.

    Conventions of the embedding.
    - A JavaScript string is a [string] of 8-bit characters (the Latin-1
      range of UTF-16 code units).
    - A JavaScript [number] is [JS.number]: [NaN], the two infinities, or a
      finite value written as a decimal [mantissa * 10 ^ exponent].  The
      value is kept exactly: rounding to binary64, overflow and the sign of
      zero are not modelled.
    - [Date.now()], the HTTP client and the storage backend are the
      environment: [Env] gives the successive clock readings and the answer
      to each request, [LocalStorage] is the storage slot.
    - An asynchronous function runs atomically from its first statement to
      its last: the interleaving of two handlers that are in flight at the
      same time is not modelled. *)

From Stdlib Require Import ZArith String Ascii List Lia Bool DecimalString.
From stdpp Require Import base tactics option list strings gmap.

Local Open Scope string_scope.
Local Open Scope list_scope.
Local Open Scope Z_scope.

(** ** JavaScript built-ins used by the program *)

Module JS.

(** *** Strings *)

(** [WhiteSpace] and [LineTerminator] code points below 256. *)
Definition is_whitespace (c : ascii) : bool :=
  let n := N_of_ascii c in
  ((n =? 9) || (n =? 10) || (n =? 11) || (n =? 12) || (n =? 13)
   || (n =? 32) || (n =? 160))%N.

Fixpoint trimStart (s : string) : string :=
  match s with
  | EmptyString => EmptyString
  | String c s' => if is_whitespace c then trimStart s' else s
  end.

Fixpoint trimEnd (s : string) : string :=
  match s with
  | EmptyString => EmptyString
  | String c s' =>
      match trimEnd s' with
      | EmptyString => if is_whitespace c then EmptyString else String c EmptyString
      | t => String c t
      end
  end.

(** [String.prototype.trim] *)
Definition trim (s : string) : string := trimEnd (trimStart s).

Definition lower_char (c : ascii) : ascii :=
  let n := N_of_ascii c in
  if (((65 <=? n) && (n <=? 90))
      || ((192 <=? n) && (n <=? 222) && negb (n =? 215)))%N
  then ascii_of_N (n + 32) else c.

(** [String.prototype.toLowerCase] *)
Fixpoint toLowerCase (s : string) : string :=
  match s with
  | EmptyString => EmptyString
  | String c s' => String (lower_char c) (toLowerCase s')
  end.

(** [String.prototype.includes] *)
Fixpoint includes (s t : string) : bool :=
  if String.prefix t s then true
  else match s with
       | EmptyString => false
       | String _ s' => includes s' t
       end.

(** Truthiness of a string: [Boolean(s)], [!s], [s || d]. *)
Definition truthy (s : string) : bool :=
  match s with EmptyString => false | _ => true end.

(** Truthiness of a string that may be [undefined]. *)
Definition truthy_opt (a : option string) : bool :=
  match a with Some s => truthy s | None => false end.

(** [a || b] on optional strings ([undefined] and [''] are falsy). *)
Definition or_else (a : option string) (b : option string) : option string :=
  match a with
  | Some s => if truthy s then a else b
  | None => b
  end.

(** [a ?? b] *)
Definition nullish {A} (a : option A) (b : A) : A :=
  match a with Some x => x | None => b end.

(** *** Numbers *)

Inductive number : Type :=
| NaN
| Infinity (negative : bool)
| Finite (mantissa exponent : Z).

Definition of_Z (z : Z) : number := Finite z 0.

(** [Number.isNaN] *)
Definition Number_isNaN (x : number) : bool :=
  match x with NaN => true | _ => false end.

Definition is_finite (x : number) : bool :=
  match x with Finite _ _ => true | _ => false end.

(** Both mantissas at the smaller of the two exponents. *)
Definition align (m1 e1 m2 e2 : Z) : Z * Z :=
  let e := Z.min e1 e2 in (m1 * 10 ^ (e1 - e), m2 * 10 ^ (e2 - e)).

(** [x < y] *)
Definition ltb (x y : number) : bool :=
  match x, y with
  | NaN, _ | _, NaN => false
  | Infinity true, Infinity true => false
  | Infinity true, _ => true
  | _, Infinity true => false
  | Infinity false, _ => false
  | _, Infinity false => true
  | Finite m1 e1, Finite m2 e2 =>
      let '(a, b) := align m1 e1 m2 e2 in a <? b
  end.

(** [x === y] *)
Definition eqb (x y : number) : bool :=
  match x, y with
  | Infinity a, Infinity b => Bool.eqb a b
  | Finite m1 e1, Finite m2 e2 =>
      let '(a, b) := align m1 e1 m2 e2 in a =? b
  | _, _ => false
  end.

Fixpoint strip_zeros (fuel : nat) (m e : Z) : Z * Z :=
  match fuel with
  | O => (m, e)
  | S fuel' =>
      if m mod 10 =? 0 then strip_zeros fuel' (m / 10) (e + 1) else (m, e)
  end.

(** The decimal with no trailing zero in its mantissa. *)
Definition canonical (m e : Z) : Z * Z :=
  if m =? 0 then (0, 0) else strip_zeros (Z.to_nat (Z.log2_up (Z.abs m))) m e.

Definition digits (n : Z) : string :=
  NilZero.string_of_uint (N.to_uint (Z.abs_N n)).

Fixpoint zeros (n : nat) : string :=
  match n with O => EmptyString | S n' => String "0" (zeros n') end.

Definition strlen (s : string) : Z := Z.of_nat (String.length s).

Definition substr (start len : Z) (s : string) : string :=
  String.substring (Z.to_nat start) (Z.to_nat len) s.

(** [Number::toString] in radix 10, the conversion of a template literal. *)
Definition Number_toString (x : number) : string :=
  match x with
  | NaN => "NaN"
  | Infinity false => "Infinity"
  | Infinity true => "-Infinity"
  | Finite m0 e0 =>
      let '(m, e) := canonical m0 e0 in
      if m =? 0 then "0" else
      let s := digits m in
      let k := strlen s in
      let n := k + e in
      let body :=
        if (k <=? n) && (n <=? 21) then s +:+ zeros (Z.to_nat (n - k))
        else if (0 <? n) && (n <=? 21) then
          substr 0 n s +:+ "." +:+ substr n (k - n) s
        else if (-6 <? n) && (n <=? 0) then
          "0." +:+ zeros (Z.to_nat (- n)) +:+ s
        else
          let x := n - 1 in
          let es := (if x <? 0 then "-" else "+") +:+ digits x in
          if k =? 1 then s +:+ "e" +:+ es
          else substr 0 1 s +:+ "." +:+ substr 1 (k - 1) s +:+ "e" +:+ es in
      if m <? 0 then "-" +:+ body else body
  end.

(** [Math.round]: the nearest integer, a tie going up. *)
Definition Math_round (x : number) : number :=
  match x with
  | Finite m e =>
      if 0 <=? e then x
      else let d := 10 ^ (- e) in Finite ((2 * m + d) / (2 * d)) 0
  | _ => x
  end.

(** *** [Number(s)]: [StringToNumber] *)

Definition digit_value (radix : N) (c : ascii) : option N :=
  let n := N_of_ascii c in
  let v :=
    if ((48 <=? n) && (n <=? 57))%N then Some (n - 48)%N
    else if ((97 <=? n) && (n <=? 102))%N then Some (n - 87)%N
    else if ((65 <=? n) && (n <=? 70))%N then Some (n - 55)%N
    else None in
  match v with
  | Some d => if (d <? radix)%N then Some d else None
  | None => None
  end.

(** The longest run of digits at the head of [s]: the value accumulated
    onto [acc], the number of digits read, the rest. *)
Fixpoint take_digits (radix : N) (s : string) (acc : N) (count : nat)
  : N * nat * string :=
  match s with
  | EmptyString => (acc, count, EmptyString)
  | String c s' =>
      match digit_value radix c with
      | Some d => take_digits radix s' (radix * acc + d)%N (S count)
      | None => (acc, count, s)
      end
  end.

Definition take_sign (s : string) : bool * string :=
  match s with
  | String "-" s' => (true, s')
  | String "+" s' => (false, s')
  | _ => (false, s)
  end.

(** The exponent part: absent, or [e] / [E], a sign, one digit or more. *)
Definition exponent_part (s : string) : option Z :=
  match s with
  | EmptyString => Some 0
  | String c s' =>
      if (N_of_ascii c =? 101)%N || (N_of_ascii c =? 69)%N then
        let '(neg, s'') := take_sign s' in
        match take_digits 10 s'' 0%N O with
        | (_, O, _) => None
        | (v, _, EmptyString) => Some (if neg then - Z.of_N v else Z.of_N v)
        | _ => None
        end
      else None
  end.

Definition decimal_literal (s : string) : number :=
  let '(neg, s1) := take_sign s in
  if String.eqb s1 "Infinity" then Infinity neg else
  let '(i, ni, s2) := take_digits 10 s1 0%N O in
  let '(m, nf, s3) :=
    match s2 with
    | String "." s2' => take_digits 10 s2' i O
    | _ => (i, O, s2)
    end in
  match (ni + nf)%nat with
  | O => NaN
  | _ =>
      match exponent_part s3 with
      | Some x =>
          Finite (if neg then - Z.of_N m else Z.of_N m) (x - Z.of_nat nf)
      | None => NaN
      end
  end.

Definition radix_literal (radix : N) (s : string) : number :=
  match take_digits radix s 0%N O with
  | (_, O, _) => NaN
  | (v, _, EmptyString) => Finite (Z.of_N v) 0
  | _ => NaN
  end.

Definition Number_of_string (s0 : string) : number :=
  match trim s0 with
  | EmptyString => Finite 0 0
  | String "0" (String c s') as s =>
      let n := N_of_ascii c in
      if ((n =? 120) || (n =? 88))%N then radix_literal 16 s'
      else if ((n =? 111) || (n =? 79))%N then radix_literal 8 s'
      else if ((n =? 98) || (n =? 66))%N then radix_literal 2 s'
      else decimal_literal s
  | s => decimal_literal s
  end.

(** *** Arrays *)

(** The clamped index of [Array.prototype.slice]: negative counts from
    the end. *)
Definition clamp_index (len i : Z) : Z :=
  if i <? 0 then Z.max (len + i) 0 else Z.min i len.

(** [Array.prototype.slice (start, end)] *)
Definition slice {A} (l : list A) (start stop : Z) : list A :=
  let len := Z.of_nat (length l) in
  let k := clamp_index len start in
  let final := clamp_index len stop in
  take (Z.to_nat (Z.max (final - k) 0)) (drop (Z.to_nat k) l).

(** [Array.prototype.splice (start, deleteCount, item)] *)
Definition splice {A} (l : list A) (start deleteCount : Z) (item : A)
  : list A :=
  let len := Z.of_nat (length l) in
  let k := clamp_index len start in
  let d := Z.min (Z.max deleteCount 0) (len - k) in
  take (Z.to_nat k) l ++ item :: drop (Z.to_nat (k + d)) l.

(** [Array.prototype.findIndex]: the first index, or [-1]. *)
Definition findIndex {A} (p : A -> bool) (l : list A) : Z :=
  match list_find (fun x => p x = true) l with
  | Some (i, _) => Z.of_nat i
  | None => -1
  end.

(** [Math.ceil(a / b)] for integers [a] and [b > 0]. *)
Definition Math_ceil_div (a b : Z) : Z := - ((- a) / b).

End JS.

(** ** The data model: [src/types.ts] *)

Module Types.

Inductive SearchMode : Type := city | zip | coords.

(** The string that a mode is at run time. *)
Definition SearchMode_text (m : SearchMode) : string :=
  match m with city => "city" | zip => "zip" | coords => "coords" end.

Definition SearchMode_of_text (s : string) : option SearchMode :=
  if String.eqb s "city" then Some city
  else if String.eqb s "zip" then Some zip
  else if String.eqb s "coords" then Some coords
  else None.

Module WeatherView.
Record t : Type := {
  id : JS.number;
  name : string;
  country : string;
  description : string;
  icon : string;
  temperature : JS.number;
  humidity : JS.number;
  wind : JS.number;
  pressure : JS.number;
  sunrise : JS.number;
  sunset : JS.number;
  updatedAt : JS.number;
}.
End WeatherView.

Module SavedForecast.
Record t : Type := {
  key : string;
  mode : SearchMode;
  value : string;
  country : option string;
  lat : option JS.number;
  lon : option JS.number;
  weather : WeatherView.t;
}.

(** [{ ...item, weather: w }] *)
Definition with_weather (item : t) (w : WeatherView.t) : t :=
  {| key := key item; mode := mode item; value := value item;
     country := country item; lat := lat item; lon := lon item;
     weather := w |}.
End SavedForecast.

Inductive NotificationType : Type := success | info | danger.

Module AppNotification.
Record t : Type := {
  id : JS.number;
  type : NotificationType;
  text : string;
}.
End AppNotification.

End Types.

(** ** Values that are thrown and caught

    The shape that [parseError] gives to a caught value: a string, an
    object read through the fields [response], [request] and [message], or
    any other value ([null], [undefined], a number, a boolean). *)

Module Thrown.

Module ErrorData.
Record t : Type := { message : option string }.
End ErrorData.

Module ErrorResponse.
(** [status] is an HTTP status code, an integer. *)
Record t : Type := { data : option ErrorData.t; status : option Z }.
End ErrorResponse.

Module ErrorObject.
(** [request] is only tested for truthiness; the field holds that. *)
Record t : Type := {
  response : option ErrorResponse.t;
  request : bool;
  message : option string;
}.
End ErrorObject.

Inductive t : Type :=
| Str (s : string)
| Obj (o : ErrorObject.t)
| Other.

(** [new Error(msg)] *)
Definition Error (msg : string) : t :=
  Obj {| ErrorObject.response := None; ErrorObject.request := false;
         ErrorObject.message := Some msg |}.

End Thrown.

(** ** State and exceptions

    A computation over a state [S] returns a value or throws, and leaves a
    state in both cases. *)

Module Eff.

Definition M (S A : Type) : Type := S -> (Thrown.t + A) * S.

Definition ret {S A} (a : A) : M S A := fun s => (inr a, s).

Definition throw {S A} (e : Thrown.t) : M S A := fun s => (inl e, s).

Definition bind {S A B} (m : M S A) (k : A -> M S B) : M S B :=
  fun s =>
    match m s with
    | (inr a, s') => k a s'
    | (inl e, s') => (inl e, s')
    end.

(** [try { m } catch (error) { h error }] *)
Definition try_catch {S A} (m : M S A) (h : Thrown.t -> M S A) : M S A :=
  fun s =>
    match m s with
    | (inr a, s') => (inr a, s')
    | (inl e, s') => h e s'
    end.

(** [try { m } finally { f }], for an [f] that does not throw. *)
Definition finally {S A} (m : M S A) (f : S -> S) : M S A :=
  fun s => let '(r, s') := m s in (r, f s').

Definition gets {S A} (f : S -> A) : M S A := fun s => (inr (f s), s).

Definition modify {S} (f : S -> S) : M S unit := fun s => (inr tt, f s).

(** A pure result that is a value or an exception. *)
Definition lift_result {S A} (r : Thrown.t + A) : M S A := fun s => (r, s).

(** A promise run until it settles: its value or its rejection, as a
    value. *)
Definition settle {S A} (m : M S A) : M S (Thrown.t + A) :=
  fun s => let '(r, s') := m s in (inr r, s').

(** Run a computation over a part [T] of the state [S]. *)
Definition zoom {S T A} (get : S -> T) (set : T -> S -> S) (m : M T A)
  : M S A :=
  fun s => let '(r, t') := m (get s) in (r, set t' s).

Definition exec {S A} (m : M S A) (s : S) : S := snd (m s).

End Eff.

Notation "x <- m ;; k" := (Eff.bind m (fun x => k))
  (at level 100, m at next level, right associativity).
Notation "m ;;; k" := (Eff.bind m (fun _ => k))
  (at level 100, right associativity).

(** ** The weather client: [services/weatherService.ts] *)

Module WeatherService.
Import Types.

Module WeatherQuery.
Record t : Type := {
  mode : SearchMode;
  city : option string;
  zip : option string;
  country : option string;
  lat : option JS.number;
  lon : option JS.number;
  apiKey : string;
}.
End WeatherQuery.

(** The response body.  [mapWeather] reads [sys], [main], [wind] and their
    fields defensively ([?.] and [??]), so they are optional here. *)
Module WeatherApiResponse.
Module Sys.
Record t : Type := {
  country : option string;
  sunrise : option JS.number;
  sunset : option JS.number;
}.
End Sys.
Module Main.
Record t : Type := {
  temp : option JS.number;
  humidity : option JS.number;
  pressure : option JS.number;
}.
End Main.
Module Wind.
Record t : Type := { speed : option JS.number }.
End Wind.
Module Condition.
Record t : Type := {
  description : option string;
  icon : option string;
}.
End Condition.
Record t : Type := {
  id : JS.number;
  name : string;
  sys : option Sys.t;
  main : option Main.t;
  wind : option Wind.t;
  weather : list Condition.t;
}.
End WeatherApiResponse.

(** The [params] object of the request. *)
Module Params.
Record t : Type := {
  appid : string;
  units : string;
  q : option string;
  zip : option string;
  lat : option JS.number;
  lon : option JS.number;
}.
Definition with_q (p : t) (v : string) : t :=
  {| appid := appid p; units := units p; q := Some v; zip := zip p;
     lat := lat p; lon := lon p |}.
Definition with_zip (p : t) (v : string) : t :=
  {| appid := appid p; units := units p; q := q p; zip := Some v;
     lat := lat p; lon := lon p |}.
Definition with_lat_lon (p : t) (la lo : JS.number) : t :=
  {| appid := appid p; units := units p; q := q p; zip := zip p;
     lat := Some la; lon := Some lo |}.
End Params.

(** What [client.get] settles with: the response body, or the rejection
    (no response, or a response outside 2xx). *)
Definition Reply : Type := Thrown.t + WeatherApiResponse.t.

(** The answer of the caching client to its [n]-th call. *)
Definition Network : Type := nat -> Params.t -> Reply.

(** The calls made to the client so far, oldest first. *)
Definition Requests : Type := list Params.t.

Definition client_get (net : Network) (params : Params.t)
  : Eff.M Requests WeatherApiResponse.t :=
  fun sent => (net (length sent) params, sent ++ [params]).

Definition fetchWeather (net : Network) (query : WeatherQuery.t)
  : Eff.M Requests WeatherApiResponse.t :=
  let params :=
    {| Params.appid := WeatherQuery.apiKey query; Params.units := "metric";
       Params.q := None; Params.zip := None;
       Params.lat := None; Params.lon := None |} in
  params <-
    match WeatherQuery.mode query with
    | city =>
        match WeatherQuery.city query with
        | Some c =>
            if JS.truthy (JS.trim c) then Eff.ret (Params.with_q params (JS.trim c))
            else Eff.throw (Thrown.Error "City name is required")
        | None => Eff.throw (Thrown.Error "City name is required")
        end
    | zip =>
        match WeatherQuery.zip query with
        | Some z =>
            if JS.truthy (JS.trim z) then
              Eff.ret
                (Params.with_zip params
                   match WeatherQuery.country query with
                   | Some c =>
                       if JS.truthy c then JS.trim z +:+ "," +:+ JS.trim c
                       else JS.trim z
                   | None => JS.trim z
                   end)
            else Eff.throw (Thrown.Error "ZIP code is required")
        | None => Eff.throw (Thrown.Error "ZIP code is required")
        end
    | coords =>
        match WeatherQuery.lat query, WeatherQuery.lon query with
        | Some la, Some lo => Eff.ret (Params.with_lat_lon params la lo)
        | _, _ => Eff.throw (Thrown.Error "Latitude and longitude are required")
        end
    end ;;
  Eff.try_catch (client_get net params) (fun error => Eff.throw error).

End WeatherService.

(** ** JSON

    A JSON text is held as the document it denotes; a text that is not
    JSON is [Malformed].  [JSON.stringify] and [JSON.parse] are given on
    documents: a property whose value is [undefined] is left out, a number
    that is not finite is written [null]. *)

Module Json.
Import Types.

#[local] Set Warnings "-register-all".

Inductive t : Type :=
| Null
| Bool (b : bool)
| Num (mantissa exponent : Z)
| Str (s : string)
| Arr (elements : list t)
| Obj (properties : list (string * t)).

Inductive text : Type :=
| Doc (j : t)
| Malformed (raw : string).

(** [!raw] for a text read from storage. *)
Definition falsy (x : text) : bool :=
  match x with
  | Doc _ => false
  | Malformed raw => negb (JS.truthy raw)
  end.

Definition of_number (x : JS.number) : t :=
  match x with
  | JS.Finite m e => Num m e
  | _ => Null
  end.

(** An object literal: the properties in order, without the undefined. *)
Definition object (properties : list (string * option t)) : t :=
  Obj (omap (fun p => match snd p with
                      | Some v => Some (fst p, v)
                      | None => None
                      end) properties).

Definition of_WeatherView (w : WeatherView.t) : t :=
  object
    [ ("id", Some (of_number (WeatherView.id w)));
      ("name", Some (Str (WeatherView.name w)));
      ("country", Some (Str (WeatherView.country w)));
      ("description", Some (Str (WeatherView.description w)));
      ("icon", Some (Str (WeatherView.icon w)));
      ("temperature", Some (of_number (WeatherView.temperature w)));
      ("humidity", Some (of_number (WeatherView.humidity w)));
      ("wind", Some (of_number (WeatherView.wind w)));
      ("pressure", Some (of_number (WeatherView.pressure w)));
      ("sunrise", Some (of_number (WeatherView.sunrise w)));
      ("sunset", Some (of_number (WeatherView.sunset w)));
      ("updatedAt", Some (of_number (WeatherView.updatedAt w))) ].

Definition of_SavedForecast (f : SavedForecast.t) : t :=
  object
    [ ("key", Some (Str (SavedForecast.key f)));
      ("mode", Some (Str (SearchMode_text (SavedForecast.mode f))));
      ("value", Some (Str (SavedForecast.value f)));
      ("country", Str <$> SavedForecast.country f);
      ("lat", of_number <$> SavedForecast.lat f);
      ("lon", of_number <$> SavedForecast.lon f);
      ("weather", Some (of_WeatherView (SavedForecast.weather f))) ].

(** [JSON.stringify(items)] *)
Definition JSON_stringify (items : list SavedForecast.t) : text :=
  Doc (Arr (map of_SavedForecast items)).

(** [JSON.parse(raw)] *)
Definition JSON_parse (raw : text) : Thrown.t + t :=
  match raw with
  | Doc j => inr j
  | Malformed _ => inl (Thrown.Error "Unexpected token in JSON")
  end.

(** *** Reading a parsed value at the types of [types.ts]

    [loadSavedForecasts] returns the parsed array unchecked; these
    readers say which [SavedForecast] a parsed value is, if any. *)

(** [j[k]]: the last property of that name, [None] for [undefined]. *)
Definition get (k : string) (j : t) : option t :=
  match j with
  | Obj properties =>
      fold_left (fun found p => if String.eqb (fst p) k then Some (snd p) else found)
        properties None
  | _ => None
  end.

Definition as_string (j : option t) : option string :=
  match j with Some (Str s) => Some s | _ => None end.

Definition as_number (j : option t) : option JS.number :=
  match j with Some (Num m e) => Some (JS.Finite m e) | _ => None end.

(** An optional property: absent, or of the type read by [read]. *)
Definition optional {A} (read : option t -> option A) (j : option t)
  : option (option A) :=
  match j with
  | None => Some None
  | Some _ => Some <$> read j
  end.

Definition to_WeatherView (j : t) : option WeatherView.t :=
  id ← as_number (get "id" j);
  name ← as_string (get "name" j);
  country ← as_string (get "country" j);
  description ← as_string (get "description" j);
  icon ← as_string (get "icon" j);
  temperature ← as_number (get "temperature" j);
  humidity ← as_number (get "humidity" j);
  wind ← as_number (get "wind" j);
  pressure ← as_number (get "pressure" j);
  sunrise ← as_number (get "sunrise" j);
  sunset ← as_number (get "sunset" j);
  updatedAt ← as_number (get "updatedAt" j);
  Some {| WeatherView.id := id; WeatherView.name := name;
          WeatherView.country := country;
          WeatherView.description := description;
          WeatherView.icon := icon;
          WeatherView.temperature := temperature;
          WeatherView.humidity := humidity; WeatherView.wind := wind;
          WeatherView.pressure := pressure;
          WeatherView.sunrise := sunrise; WeatherView.sunset := sunset;
          WeatherView.updatedAt := updatedAt |}.

Definition to_SavedForecast (j : t) : option SavedForecast.t :=
  key ← as_string (get "key" j);
  mode ← as_string (get "mode" j) ≫= SearchMode_of_text;
  value ← as_string (get "value" j);
  country ← optional as_string (get "country" j);
  lat ← optional as_number (get "lat" j);
  lon ← optional as_number (get "lon" j);
  weather ← get "weather" j ≫= to_WeatherView;
  Some {| SavedForecast.key := key; SavedForecast.mode := mode;
          SavedForecast.value := value; SavedForecast.country := country;
          SavedForecast.lat := lat; SavedForecast.lon := lon;
          SavedForecast.weather := weather |}.

End Json.

(** ** The storage helpers: [storage.ts] *)

Module Storage.
Import Types.

Definition STORAGE_KEY : string := "weather-forecasts".

(** [window.localStorage]: the stored texts, whether reads and writes go
    through or throw, and the number of
    calls of [setItem] so far. *)
Record LocalStorage : Type := {
  entries : gmap string Json.text;
  readable : bool;
  writable : bool;
  setItem_calls : nat;
}.

Definition getItem (k : string) : Eff.M LocalStorage (option Json.text) :=
  fun ls =>
    if readable ls then (inr (entries ls !! k), ls)
    else (inl (Thrown.Error "The operation is insecure."), ls).

Definition setItem (k : string) (v : Json.text) : Eff.M LocalStorage unit :=
  fun ls =>
    let called :=
      {| entries := entries ls; readable := readable ls;
         writable := writable ls; setItem_calls := S (setItem_calls ls) |} in
    if writable ls then
      (inr tt,
       {| entries := <[k := v]> (entries ls); readable := readable ls;
          writable := writable ls; setItem_calls := S (setItem_calls ls) |})
    else (inl (Thrown.Error "The quota has been exceeded."), called).

(** The elements of the stored array, as parsed. *)
Definition loadSavedForecasts : Eff.M LocalStorage (list Json.t) :=
  Eff.try_catch
    (raw <- getItem STORAGE_KEY ;;
     match raw with
     | None => Eff.ret []
     | Some raw =>
         if Json.falsy raw then Eff.ret []
         else
           parsed <- Eff.lift_result (Json.JSON_parse raw) ;;
           match parsed with
           | Json.Arr elements => Eff.ret elements
           | _ => Eff.ret []
           end
     end)
    (fun error => Eff.ret []).

Definition persistForecasts (items : list SavedForecast.t)
  : Eff.M LocalStorage unit :=
  Eff.try_catch
    (setItem STORAGE_KEY (Json.JSON_stringify items))
    (fun error => Eff.ret tt).

End Storage.

(** ** The application: [src/App.vue] *)

Module App.
Import Types.

Definition API_KEY : string := "b55616e8a1f4ebd7ddac31a77c399945".
Definition PAGE_SIZE : Z := 10.
Definition REFRESH_MS : Z := 1000 * 60 * 5.

Module Form.
Record t : Type := {
  mode : SearchMode;
  city : string;
  zip : string;
  zipCountry : string;
  lat : string;
  lon : string;
}.
End Form.

(** The refs of the component, then the world outside it: the storage,
    the calls made to the HTTP client and the number of clock readings
    taken. *)
Record State : Type := {
  notifications : list AppNotification.t;
  modalOpen : bool;
  isLoading : bool;
  searchTerm : string;
  currentPage : Z;
  savedForecasts : list SavedForecast.t;
  form : Form.t;
  localStorage : Storage.LocalStorage;
  requests : WeatherService.Requests;
  clock_reads : nat;
}.

Definition set_notifications (v : list AppNotification.t) (st : State) : State :=
  {| notifications := v; modalOpen := modalOpen st; isLoading := isLoading st;
     searchTerm := searchTerm st; currentPage := currentPage st;
     savedForecasts := savedForecasts st; form := form st;
     localStorage := localStorage st; requests := requests st;
     clock_reads := clock_reads st |}.

Definition set_modalOpen (v : bool) (st : State) : State :=
  {| notifications := notifications st; modalOpen := v; isLoading := isLoading st;
     searchTerm := searchTerm st; currentPage := currentPage st;
     savedForecasts := savedForecasts st; form := form st;
     localStorage := localStorage st; requests := requests st;
     clock_reads := clock_reads st |}.

Definition set_isLoading (v : bool) (st : State) : State :=
  {| notifications := notifications st; modalOpen := modalOpen st; isLoading := v;
     searchTerm := searchTerm st; currentPage := currentPage st;
     savedForecasts := savedForecasts st; form := form st;
     localStorage := localStorage st; requests := requests st;
     clock_reads := clock_reads st |}.

Definition set_searchTerm (v : string) (st : State) : State :=
  {| notifications := notifications st; modalOpen := modalOpen st;
     isLoading := isLoading st; searchTerm := v; currentPage := currentPage st;
     savedForecasts := savedForecasts st; form := form st;
     localStorage := localStorage st; requests := requests st;
     clock_reads := clock_reads st |}.

Definition set_currentPage (v : Z) (st : State) : State :=
  {| notifications := notifications st; modalOpen := modalOpen st;
     isLoading := isLoading st; searchTerm := searchTerm st; currentPage := v;
     savedForecasts := savedForecasts st; form := form st;
     localStorage := localStorage st; requests := requests st;
     clock_reads := clock_reads st |}.

Definition set_savedForecasts (v : list SavedForecast.t) (st : State) : State :=
  {| notifications := notifications st; modalOpen := modalOpen st;
     isLoading := isLoading st; searchTerm := searchTerm st;
     currentPage := currentPage st; savedForecasts := v; form := form st;
     localStorage := localStorage st; requests := requests st;
     clock_reads := clock_reads st |}.

Definition set_form (v : Form.t) (st : State) : State :=
  {| notifications := notifications st; modalOpen := modalOpen st;
     isLoading := isLoading st; searchTerm := searchTerm st;
     currentPage := currentPage st; savedForecasts := savedForecasts st;
     form := v; localStorage := localStorage st; requests := requests st;
     clock_reads := clock_reads st |}.

Definition set_localStorage (v : Storage.LocalStorage) (st : State) : State :=
  {| notifications := notifications st; modalOpen := modalOpen st;
     isLoading := isLoading st; searchTerm := searchTerm st;
     currentPage := currentPage st; savedForecasts := savedForecasts st;
     form := form st; localStorage := v; requests := requests st;
     clock_reads := clock_reads st |}.

Definition set_requests (v : WeatherService.Requests) (st : State) : State :=
  {| notifications := notifications st; modalOpen := modalOpen st;
     isLoading := isLoading st; searchTerm := searchTerm st;
     currentPage := currentPage st; savedForecasts := savedForecasts st;
     form := form st; localStorage := localStorage st; requests := v;
     clock_reads := clock_reads st |}.

Definition set_clock_reads (v : nat) (st : State) : State :=
  {| notifications := notifications st; modalOpen := modalOpen st;
     isLoading := isLoading st; searchTerm := searchTerm st;
     currentPage := currentPage st; savedForecasts := savedForecasts st;
     form := form st; localStorage := localStorage st;
     requests := requests st; clock_reads := v |}.

(** The environment: the value of the [n]-th reading of the clock, in
    milliseconds, and the answers of the HTTP client. *)
Record Env : Type := {
  clock : nat -> Z;
  network : WeatherService.Network;
}.

Definition M (A : Type) : Type := Eff.M State A.

(** The query object that [buildQuery] returns. *)
Module Query.
Record t : Type := {
  mode : SearchMode;
  city : option string;
  zip : option string;
  country : option string;
  lat : option JS.number;
  lon : option JS.number;
}.
End Query.

Inductive Command : Type :=
| Add (f : Form.t)
| Remove (key : string)
| Refresh (showMessage : bool).

(** *** The views, which read the state only *)

Definition search_fields (f : SavedForecast.t) : list string :=
  [ WeatherView.name (SavedForecast.weather f);
    WeatherView.country (SavedForecast.weather f);
    WeatherView.description (SavedForecast.weather f);
    JS.Number_toString
      (JS.Math_round (WeatherView.temperature (SavedForecast.weather f))) ].

Definition filtered (st : State) : list SavedForecast.t :=
  let term := JS.toLowerCase (JS.trim (searchTerm st)) in
  if negb (JS.truthy term) then savedForecasts st
  else
    List.filter
      (fun f =>
         existsb (fun field => JS.includes (JS.toLowerCase field) term)
           (List.filter JS.truthy (search_fields f)))
      (savedForecasts st).

Definition paged (st : State) : list SavedForecast.t :=
  let start := (currentPage st - 1) * PAGE_SIZE in
  JS.slice (filtered st) start (start + PAGE_SIZE).

Definition totalPages (st : State) : Z :=
  Z.max 1
    (let pages := JS.Math_ceil_div (Z.of_nat (length (filtered st))) PAGE_SIZE in
     if pages =? 0 then 1 else pages).

(** The callback of [watch(filtered, ...)]. *)
Definition watch_filtered (st : State) : State :=
  if currentPage st >? totalPages st then set_currentPage 1 st else st.

Definition forecastKey (mode : SearchMode) (value : string) : string :=
  JS.toLowerCase (SearchMode_text mode +:+ "-" +:+ value).

Definition NETWORK_ERROR : string :=
  "Network error: Could not reach the server. Check your internet connection.".
Definition INVALID_KEY : string :=
  "Invalid API key. Please check your OpenWeatherMap API key.".
Definition NOT_FOUND : string := "City not found. Please check the city name.".
Definition TOO_MANY : string := "Too many requests. Please wait a moment.".
Definition FALLBACK : string := "Something went wrong. Please try again.".

Definition status_text (status : Z) : string :=
  JS.Number_toString (JS.of_Z status).

Definition parseError (error : Thrown.t) : string :=
  match error with
  | Thrown.Str s => s
  | Thrown.Obj axiosError =>
      if Thrown.ErrorObject.request axiosError
         && negb (bool_decide (is_Some (Thrown.ErrorObject.response axiosError)))
      then NETWORK_ERROR
      else
        match Thrown.ErrorObject.response axiosError with
        | Some response =>
            let msg :=
              Thrown.ErrorResponse.data response ≫= Thrown.ErrorData.message in
            let status := Thrown.ErrorResponse.status response in
            let status_truthy :=
              match status with Some n => negb (n =? 0) | None => false end in
            let status_is (n : Z) :=
              match status with Some m => m =? n | None => false end in
            if JS.truthy_opt msg then
              (if status_truthy
               then "[" +:+ status_text (JS.nullish status 0) +:+ "] "
               else "") +:+ JS.nullish msg ""
            else if status_is 401 then INVALID_KEY
            else if status_is 404 then NOT_FOUND
            else if status_is 429 then TOO_MANY
            else
              "API error: " +:+
              (if status_truthy then status_text (JS.nullish status 0)
               else "Unknown error")
        | None =>
            match Thrown.ErrorObject.message axiosError with
            | Some m => if JS.truthy m then m else FALLBACK
            | None => FALLBACK
            end
        end
  | Thrown.Other => FALLBACK
  end.

(** *** The handlers, over the environment *)

Section Handlers.
Variable env : Env.

(** [Date.now()] *)
Definition Date_now : M Z :=
  fun st => (inr (clock env (clock_reads st)),
             set_clock_reads (S (clock_reads st)) st).

(** [notify]; the timer it sets runs [notification_timeout] later. *)
Definition notify (type : NotificationType) (text : string) : M unit :=
  id <- Date_now ;;
  Eff.modify (fun st =>
    set_notifications
      (notifications st ++
       [ {| AppNotification.id := JS.of_Z id; AppNotification.type := type;
            AppNotification.text := text |} ]) st).

(** The callback given to [setTimeout] by [notify]. *)
Definition notification_timeout (id : Z) (st : State) : State :=
  set_notifications
    (List.filter
       (fun n => negb (JS.eqb (AppNotification.id n) (JS.of_Z id)))
       (notifications st)) st.

Definition fetchWeather (query : WeatherService.WeatherQuery.t)
  : M WeatherService.WeatherApiResponse.t :=
  Eff.zoom requests set_requests
    (WeatherService.fetchWeather (network env) query).

Definition persistForecasts (items : list SavedForecast.t) : M unit :=
  Eff.zoom localStorage set_localStorage (Storage.persistForecasts items).

(** The view that [mapWeather] builds when [Date.now()] reads [now]. *)
Definition mapWeather_at (now : Z) (data : WeatherService.WeatherApiResponse.t)
  : WeatherView.t :=
  let first := head (WeatherService.WeatherApiResponse.weather data) in
  let sys := WeatherService.WeatherApiResponse.sys data in
  let main := WeatherService.WeatherApiResponse.main data in
  let wind := WeatherService.WeatherApiResponse.wind data in
  let zero := JS.Finite 0 0 in
  let iconCode :=
    JS.nullish (first ≫= WeatherService.WeatherApiResponse.Condition.icon) "01d" in
  {| WeatherView.id := WeatherService.WeatherApiResponse.id data;
     WeatherView.name := WeatherService.WeatherApiResponse.name data;
     WeatherView.country :=
       JS.nullish (sys ≫= WeatherService.WeatherApiResponse.Sys.country) "";
     WeatherView.description :=
       JS.nullish
         (first ≫= WeatherService.WeatherApiResponse.Condition.description)
         "N/A";
     WeatherView.icon :=
       "https://openweathermap.org/img/wn/" +:+ iconCode +:+ "@2x.png";
     WeatherView.temperature :=
       JS.nullish (main ≫= WeatherService.WeatherApiResponse.Main.temp) zero;
     WeatherView.humidity :=
       JS.nullish (main ≫= WeatherService.WeatherApiResponse.Main.humidity) zero;
     WeatherView.wind :=
       JS.nullish (wind ≫= WeatherService.WeatherApiResponse.Wind.speed) zero;
     WeatherView.pressure :=
       JS.nullish (main ≫= WeatherService.WeatherApiResponse.Main.pressure) zero;
     WeatherView.sunrise :=
       JS.nullish (sys ≫= WeatherService.WeatherApiResponse.Sys.sunrise) zero;
     WeatherView.sunset :=
       JS.nullish (sys ≫= WeatherService.WeatherApiResponse.Sys.sunset) zero;
     WeatherView.updatedAt := JS.of_Z now |}.

Definition mapWeather (data : WeatherService.WeatherApiResponse.t)
  : M WeatherView.t :=
  now <- Date_now ;;
  Eff.ret (mapWeather_at now data).

Definition buildQuery : M Query.t :=
  form <- Eff.gets form ;;
  match Form.mode form with
  | city =>
      if negb (JS.truthy (JS.trim (Form.city form)))
      then Eff.throw (Thrown.Error "Enter a city name.")
      else Eff.ret
             {| Query.mode := city; Query.city := Some (JS.trim (Form.city form));
                Query.zip := None; Query.country := None;
                Query.lat := None; Query.lon := None |}
  | zip =>
      if negb (JS.truthy (JS.trim (Form.zip form)))
      then Eff.throw (Thrown.Error "Enter a ZIP/postal code.")
      else Eff.ret
             {| Query.mode := zip; Query.city := None;
                Query.zip := Some (JS.trim (Form.zip form));
                Query.country :=
                  JS.or_else (Some (JS.trim (Form.zipCountry form))) None;
                Query.lat := None; Query.lon := None |}
  | coords =>
      let lat := JS.Number_of_string (Form.lat form) in
      let lon := JS.Number_of_string (Form.lon form) in
      if JS.Number_isNaN lat || JS.Number_isNaN lon
      then Eff.throw (Thrown.Error "Enter valid coordinates.")
      else Eff.ret
             {| Query.mode := coords; Query.city := None; Query.zip := None;
                Query.country := None;
                Query.lat := Some lat; Query.lon := Some lon |}
  end.

Definition resetForm : M unit :=
  Eff.modify
    (set_form {| Form.mode := city; Form.city := ""; Form.zip := "";
                 Form.zipCountry := "us"; Form.lat := ""; Form.lon := "" |}).

(** The text of [lat] or [lon] in a template literal. *)
Definition coordinate_text (x : option JS.number) : string :=
  match x with Some n => JS.Number_toString n | None => "undefined" end.

Definition coordinates_text (query : Query.t) : string :=
  coordinate_text (Query.lat query) +:+ "," +:+ coordinate_text (Query.lon query).

(** The key that [handleAdd] derives from the query. *)
Definition query_key (query : Query.t) : string :=
  match Query.mode query with
  | coords => forecastKey (Query.mode query) (coordinates_text query)
  | _ =>
      forecastKey (Query.mode query)
        (JS.nullish (JS.or_else (Query.city query)
                       (JS.or_else (Query.zip query) (Some ""))) "")
  end.

(** The [item] that [handleAdd] builds. *)
Definition query_item (query : Query.t) (weather : WeatherView.t)
  : SavedForecast.t :=
  {| SavedForecast.key := query_key query;
     SavedForecast.mode := Query.mode query;
     SavedForecast.value :=
       JS.nullish (Query.city query)
         (JS.nullish (Query.zip query) (coordinates_text query));
     SavedForecast.country := Query.country query;
     SavedForecast.lat := Query.lat query;
     SavedForecast.lon := Query.lon query;
     SavedForecast.weather := weather |}.

Definition with_apiKey (query : Query.t) : WeatherService.WeatherQuery.t :=
  {| WeatherService.WeatherQuery.mode := Query.mode query;
     WeatherService.WeatherQuery.city := Query.city query;
     WeatherService.WeatherQuery.zip := Query.zip query;
     WeatherService.WeatherQuery.country := Query.country query;
     WeatherService.WeatherQuery.lat := Query.lat query;
     WeatherService.WeatherQuery.lon := Query.lon query;
     WeatherService.WeatherQuery.apiKey := API_KEY |}.

Definition handleAdd : M unit :=
  if negb (JS.truthy API_KEY)
  then notify danger "Missing VITE_OPENWEATHER_KEY in .env file."
  else
    Eff.finally
      (Eff.try_catch
         (Eff.modify (set_isLoading true) ;;;
          query <- buildQuery ;;
          raw <- fetchWeather (with_apiKey query) ;;
          weather <- mapWeather raw ;;
          let key := query_key query in
          existingIndex <-
            Eff.gets (fun st =>
              JS.findIndex (fun f => String.eqb (SavedForecast.key f) key)
                (savedForecasts st)) ;;
          let item := query_item query weather in
          (if 0 <=? existingIndex
           then Eff.modify (fun st =>
                  set_savedForecasts
                    (JS.splice (savedForecasts st) existingIndex 1 item) st)
           else Eff.modify (fun st =>
                  set_savedForecasts (item :: savedForecasts st) st)) ;;;
          items <- Eff.gets savedForecasts ;;
          persistForecasts items ;;;
          notify success "Forecast added." ;;;
          Eff.modify (set_modalOpen false) ;;;
          resetForm)
         (fun error => notify danger (parseError error)))
      (set_isLoading false).

Definition removeForecast (key : string) : M unit :=
  Eff.modify (fun st =>
    set_savedForecasts
      (List.filter (fun f => negb (String.eqb (SavedForecast.key f) key))
         (savedForecasts st)) st) ;;;
  items <- Eff.gets savedForecasts ;;
  persistForecasts items ;;;
  notify info "Forecast removed.".

(** The query that [refreshAll] rebuilds from a saved entry. *)
Definition refresh_query (item : SavedForecast.t)
  : WeatherService.WeatherQuery.t :=
  {| WeatherService.WeatherQuery.mode := SavedForecast.mode item;
     WeatherService.WeatherQuery.city :=
       match SavedForecast.mode item with
       | city => Some (SavedForecast.value item)
       | _ => None
       end;
     WeatherService.WeatherQuery.zip :=
       match SavedForecast.mode item with
       | zip => Some (SavedForecast.value item)
       | _ => None
       end;
     WeatherService.WeatherQuery.country := SavedForecast.country item;
     WeatherService.WeatherQuery.lat := SavedForecast.lat item;
     WeatherService.WeatherQuery.lon := SavedForecast.lon item;
     WeatherService.WeatherQuery.apiKey := API_KEY |}.

(** The async callback that [refreshAll] maps over the entries. *)
Definition refresh_item (item : SavedForecast.t) : M SavedForecast.t :=
  raw <- fetchWeather (refresh_query item) ;;
  weather <- mapWeather raw ;;
  Eff.ret (SavedForecast.with_weather item weather).

(** The promises of [items.map(async ...)], run to their outcomes.
    The callbacks start in the order of the entries and none is
    cancelled; taking their clock readings in that order too fixes the
    order in which the answers arrive. *)
Fixpoint settle_all (items : list SavedForecast.t)
  : M (list (Thrown.t + SavedForecast.t)) :=
  match items with
  | [] => Eff.ret []
  | item :: rest =>
      outcome <- Eff.settle (refresh_item item) ;;
      outcomes <- settle_all rest ;;
      Eff.ret (outcome :: outcomes)
  end.

(** [Promise.all]: every value, or the first rejection. *)
Fixpoint Promise_all {A} (outcomes : list (Thrown.t + A))
  : Thrown.t + list A :=
  match outcomes with
  | [] => inr []
  | inl error :: _ => inl error
  | inr a :: rest =>
      match Promise_all rest with
      | inr values => inr (a :: values)
      | inl error => inl error
      end
  end.

Definition refreshAll (showMessage : bool) : M unit :=
  items <- Eff.gets savedForecasts ;;
  if negb (JS.truthy API_KEY) || (Z.of_nat (length items) =? 0)
  then Eff.ret tt
  else
    Eff.try_catch
      (outcomes <- settle_all items ;;
       refreshed <- Eff.lift_result (Promise_all outcomes) ;;
       Eff.modify (set_savedForecasts refreshed) ;;;
       persistForecasts refreshed ;;;
       if showMessage then notify success "Forecasts refreshed."
       else Eff.ret tt)
      (fun error => notify danger (parseError error)).

(** One user command: the form is filled in before [Save]. *)
Definition run_command (c : Command) : M unit :=
  match c with
  | Add f => Eff.modify (set_form f) ;;; handleAdd
  | Remove key => removeForecast key
  | Refresh showMessage => refreshAll showMessage
  end.

Fixpoint run_commands (cs : list Command) (st : State) : State :=
  match cs with
  | [] => st
  | c :: cs' => run_commands cs' (Eff.exec (run_command c) st)
  end.

End Handlers.

Definition empty_storage : Storage.LocalStorage :=
  {| Storage.entries := ∅; Storage.readable := true;
     Storage.writable := true; Storage.setItem_calls := O |}.

(** The state of a fresh component whose collection is empty. *)
Definition initial_state : State :=
  {| notifications := []; modalOpen := false; isLoading := false;
     searchTerm := ""; currentPage := 1; savedForecasts := [];
     form := {| Form.mode := city; Form.city := ""; Form.zip := "";
                Form.zipCountry := "us"; Form.lat := ""; Form.lon := "" |};
     localStorage := empty_storage; requests := []; clock_reads := O |}.

(** *** The pagination links of the template *)

(** [currentPage = Math.max(1, currentPage - 1)] *)
Definition previousPage (st : State) : State :=
  set_currentPage (Z.max 1 (currentPage st - 1)) st.

(** [currentPage = page], for a [page] of [v-for="page in totalPages"]. *)
Definition goToPage (page : Z) (st : State) : State :=
  set_currentPage page st.

(** [currentPage = Math.min(totalPages, currentPage + 1)] *)
Definition nextPage (st : State) : State :=
  set_currentPage (Z.min (totalPages st) (currentPage st + 1)) st.

End App.

(** * The vocabulary of the properties *)

Section Vocabulary.
Import Types App.

(** ** Strings and search *)

(** [t] occurs in [s]. *)
Definition substring_of (t s : string) : Prop :=
  exists before after, s = before +:+ t +:+ after.

(** The four texts that a search looks at. *)
Definition searched_texts (f : SavedForecast.t) : list string :=
  let w := SavedForecast.weather f in
  [ WeatherView.name w; WeatherView.country w; WeatherView.description w;
    JS.Number_toString (JS.Math_round (WeatherView.temperature w)) ].

(** [term] occurs in one of the lower-cased texts of the entry. *)
Definition Matches (term : string) (f : SavedForecast.t) : Prop :=
  Exists (fun text => substring_of term (JS.toLowerCase text)) (searched_texts f).

(** The page numbers [1 .. totalPages]. *)
Definition page_numbers (st : State) : list Z :=
  map Z.of_nat (seq 1 (Z.to_nat (totalPages st))).

(** ** Caught values *)

(** The provider message that a response carries, if any. *)
Definition provider_message (r : Thrown.ErrorResponse.t) : option string :=
  match Thrown.ErrorResponse.data r with
  | Some d => Thrown.ErrorData.message d
  | None => None
  end.

(** The status that a response carries: a number that is not 0.  A status
    that is undefined or 0 is falsy, and is treated as no status. *)
Definition carried_status (r : Thrown.ErrorResponse.t) : option Z :=
  match Thrown.ErrorResponse.status r with
  | Some st => if st =? 0 then None else Some st
  | None => None
  end.

Definition error_object (response : option Thrown.ErrorResponse.t) (request : bool)
    (message : option string) : Thrown.t :=
  Thrown.Obj
    {| Thrown.ErrorObject.response := response;
       Thrown.ErrorObject.request := request;
       Thrown.ErrorObject.message := message |}.

(** ** The collection *)

Definition key_is (k : string) (f : SavedForecast.t) : bool :=
  String.eqb (SavedForecast.key f) k.

(** What [handleAdd] does to the collection with its [item]. *)
Definition upsert (item : SavedForecast.t) (l : list SavedForecast.t)
  : list SavedForecast.t :=
  let existingIndex := JS.findIndex (key_is (SavedForecast.key item)) l in
  if 0 <=? existingIndex then JS.splice l existingIndex 1 item else item :: l.

(** ** Requests and storage *)

(** The [params] of a request by coordinates. *)
Definition coords_params (apiKey : string) (la lo : JS.number)
  : WeatherService.Params.t :=
  {| WeatherService.Params.appid := apiKey;
     WeatherService.Params.units := "metric";
     WeatherService.Params.q := None; WeatherService.Params.zip := None;
     WeatherService.Params.lat := Some la; WeatherService.Params.lon := Some lo |}.

(** The storage accepts the write and gives the text back on read. *)
Definition healthy (ls : Storage.LocalStorage) : Prop :=
  Storage.readable ls = true /\ Storage.writable ls = true.

Definition finite_opt (x : option JS.number) : bool :=
  match x with Some n => JS.is_finite n | None => true end.

(** Every number of the entry is finite. *)
Definition finite_numbers (f : SavedForecast.t) : bool :=
  let w := SavedForecast.weather f in
  finite_opt (SavedForecast.lat f) && finite_opt (SavedForecast.lon f)
  && JS.is_finite (WeatherView.id w) && JS.is_finite (WeatherView.temperature w)
  && JS.is_finite (WeatherView.humidity w) && JS.is_finite (WeatherView.wind w)
  && JS.is_finite (WeatherView.pressure w) && JS.is_finite (WeatherView.sunrise w)
  && JS.is_finite (WeatherView.sunset w) && JS.is_finite (WeatherView.updatedAt w).

(** ** Outcomes, over an environment *)

Variable env : Env.

(** The outcome of the fallible part of an add: the query that the form
    gives and the response to it, or what is thrown. *)
Definition add_outcome (st : State)
  : Thrown.t + (Query.t * WeatherService.WeatherApiResponse.t) :=
  match fst (buildQuery st) with
  | inl e => inl e
  | inr q =>
      match fst (fetchWeather env (with_apiKey q) st) with
      | inl e => inl e
      | inr raw => inr (q, raw)
      end
  end.

(** The notification that [notify] pushes in state [st]. *)
Definition notification (type : NotificationType) (text : string) (st : State)
  : AppNotification.t :=
  {| AppNotification.id := JS.of_Z (clock env (clock_reads st));
     AppNotification.type := type; AppNotification.text := text |}.

(** The outcome of the fetch of each entry, in order: the calls to the
    client are numbered as they are made. *)
Fixpoint fetch_batch (items : list SavedForecast.t)
    (sent : WeatherService.Requests) : list WeatherService.Reply :=
  match items with
  | [] => []
  | item :: rest =>
      let fetched :=
        WeatherService.fetchWeather (network env) (refresh_query item) sent in
      fetched.1 :: fetch_batch rest fetched.2
  end.

(** The calls made once the batch is over. *)
Fixpoint batch_requests (items : list SavedForecast.t)
    (sent : WeatherService.Requests) : WeatherService.Requests :=
  match items with
  | [] => sent
  | item :: rest =>
      batch_requests rest
        (WeatherService.fetchWeather (network env) (refresh_query item) sent).2
  end.

(** Each entry with its fetched weather, or the rejection of its fetch;
    a fetch that resolves takes one reading of the clock. *)
Fixpoint batch_outcomes (items : list SavedForecast.t)
    (replies : list WeatherService.Reply) (reads : nat)
  : list (Thrown.t + SavedForecast.t) :=
  match items, replies with
  | item :: items', inl e :: replies' =>
      inl e :: batch_outcomes items' replies' reads
  | item :: items', inr raw :: replies' =>
      inr (SavedForecast.with_weather item (mapWeather_at (clock env reads) raw))
      :: batch_outcomes items' replies' (S reads)
  | _, _ => []
  end.

Definition resolved (replies : list WeatherService.Reply) : nat :=
  length (List.filter (fun r => match r with inr _ => true | inl _ => false end) replies).

(** The refreshed collection when every reply is a response. *)
Fixpoint refreshed_with (items : list SavedForecast.t)
    (raws : list WeatherService.WeatherApiResponse.t) (reads : nat)
  : list SavedForecast.t :=
  match items, raws with
  | item :: items', raw :: raws' =>
      SavedForecast.with_weather item (mapWeather_at (clock env reads) raw)
      :: refreshed_with items' raws' (S reads)
  | _, _ => []
  end.

End Vocabulary.

(** ** A concrete environment, for the instances of the theorems *)

Module Demo.
Import Types App.

Definition response (name : string) : WeatherService.WeatherApiResponse.t :=
  {| WeatherService.WeatherApiResponse.id := JS.Finite 2643743 0;
     WeatherService.WeatherApiResponse.name := name;
     WeatherService.WeatherApiResponse.sys :=
       Some {| WeatherService.WeatherApiResponse.Sys.country := Some "GB";
               WeatherService.WeatherApiResponse.Sys.sunrise := Some (JS.Finite 1700031600 0);
               WeatherService.WeatherApiResponse.Sys.sunset := Some (JS.Finite 1700064000 0) |};
     WeatherService.WeatherApiResponse.main :=
       Some {| WeatherService.WeatherApiResponse.Main.temp := Some (JS.Finite 1254 (-2));
               WeatherService.WeatherApiResponse.Main.humidity := Some (JS.Finite 81 0);
               WeatherService.WeatherApiResponse.Main.pressure := Some (JS.Finite 1012 0) |};
     WeatherService.WeatherApiResponse.wind :=
       Some {| WeatherService.WeatherApiResponse.Wind.speed := Some (JS.Finite 41 (-1)) |};
     WeatherService.WeatherApiResponse.weather :=
       [ {| WeatherService.WeatherApiResponse.Condition.description := Some "light rain";
            WeatherService.WeatherApiResponse.Condition.icon := Some "10d" |} ] |}.

(** The rejection of a request answered [404]. *)
Definition not_found : Thrown.t :=
  Thrown.Obj
    {| Thrown.ErrorObject.response :=
         Some {| Thrown.ErrorResponse.data :=
                   Some {| Thrown.ErrorData.message := Some "city not found" |};
                 Thrown.ErrorResponse.status := Some 404 |};
       Thrown.ErrorObject.request := true;
       Thrown.ErrorObject.message := Some "Request failed with status code 404" |}.

(** Every place is known, except the city of Atlantis. *)
Definition known_places : WeatherService.Network :=
  fun _ params =>
    match WeatherService.Params.q params with
    | Some c => if String.eqb c "Atlantis" then inl not_found else inr (response c)
    | None => inr (response (JS.nullish (WeatherService.Params.zip params) "here"))
    end.

(** A clock that advances by a millisecond at each reading. *)
Definition env : Env :=
  {| clock := fun n => 1700000000000 + Z.of_nat n; network := known_places |}.

(** A clock read several times within one millisecond. *)
Definition env_same_ms : Env :=
  {| clock := fun _ => 1700000000000; network := known_places |}.

Definition city_form (c : string) : Form.t :=
  {| Form.mode := city; Form.city := c; Form.zip := ""; Form.zipCountry := "us";
     Form.lat := ""; Form.lon := "" |}.

Definition zip_form (z c : string) : Form.t :=
  {| Form.mode := zip; Form.city := ""; Form.zip := z; Form.zipCountry := c;
     Form.lat := ""; Form.lon := "" |}.

Definition city_query (c : string) : Query.t :=
  {| Query.mode := city; Query.city := Some c; Query.zip := None;
     Query.country := None; Query.lat := None; Query.lon := None |}.

Definition zip_query (z : string) (c : option string) : Query.t :=
  {| Query.mode := zip; Query.city := None; Query.zip := Some z;
     Query.country := c; Query.lat := None; Query.lon := None |}.

Definition entry (c : string) (updatedAt : Z) : SavedForecast.t :=
  query_item (city_query c) (mapWeather_at updatedAt (response c)).

Definition with_entries (cities : list string) : State :=
  set_savedForecasts (map (fun c => entry c 1699999000000) cities) initial_state.


Definition demo_view (w : string) (t : JS.number) : WeatherView.t :=
  {| WeatherView.id := JS.Finite 1 0; WeatherView.name := w;
     WeatherView.country := "GB"; WeatherView.description := "Clear";
     WeatherView.icon := ""; WeatherView.temperature := t;
     WeatherView.humidity := JS.Finite 0 0; WeatherView.wind := JS.Finite 0 0;
     WeatherView.pressure := JS.Finite 0 0; WeatherView.sunrise := JS.Finite 0 0;
     WeatherView.sunset := JS.Finite 0 0; WeatherView.updatedAt := JS.Finite 1000 0 |}.

Definition demo_entry (c : string) (t : JS.number) : SavedForecast.t :=
  {| SavedForecast.key := forecastKey city c; SavedForecast.mode := city;
     SavedForecast.value := c; SavedForecast.country := None;
     SavedForecast.lat := None; SavedForecast.lon := None;
     SavedForecast.weather := demo_view c t |}.

(** A collection of 23 entries. *)
Definition demo_collection : list SavedForecast.t :=
  map (fun n => demo_entry (JS.Number_toString (JS.of_Z (Z.of_nat n))) (JS.Finite 125 (-1)))
    (seq 0 23).

Definition search_demo : State :=
  set_savedForecasts
    [demo_entry "London" (JS.Finite 125 (-1)); demo_entry "Paris" (JS.Finite 204 (-1))]
    initial_state.

(** An entry whose temperature has overflowed to [Infinity]. *)
Definition overflowed : SavedForecast.t :=
  SavedForecast.with_weather (entry "London" 1700000000000)
    {| WeatherView.id := JS.Finite 2643743 0; WeatherView.name := "London";
       WeatherView.country := "GB"; WeatherView.description := "light rain";
       WeatherView.icon := "https://openweathermap.org/img/wn/10d@2x.png";
       WeatherView.temperature := JS.Infinity false;
       WeatherView.humidity := JS.Finite 81 0; WeatherView.wind := JS.Finite 41 (-1);
       WeatherView.pressure := JS.Finite 1012 0;
       WeatherView.sunrise := JS.Finite 1700031600 0;
       WeatherView.sunset := JS.Finite 1700064000 0;
       WeatherView.updatedAt := JS.Finite 1700000000000 0 |}.

End Demo.

(** * Vocabulary of the further properties *)

Section Coverage.
Import Types App.

(** [s] is empty or starts with a character that [trim] keeps. *)
Definition starts_clean (s : string) : Prop :=
  match s with
  | EmptyString => True
  | String c _ => JS.is_whitespace c = false
  end.

(** The params name the place in exactly one way: [q], [zip], or [lat]
    and [lon]. *)
Definition one_selector (p : WeatherService.Params.t) : Prop :=
  (is_Some (WeatherService.Params.q p) /\ WeatherService.Params.zip p = None
   /\ WeatherService.Params.lat p = None /\ WeatherService.Params.lon p = None)
  \/ (WeatherService.Params.q p = None /\ is_Some (WeatherService.Params.zip p)
      /\ WeatherService.Params.lat p = None /\ WeatherService.Params.lon p = None)
  \/ (WeatherService.Params.q p = None /\ WeatherService.Params.zip p = None
      /\ is_Some (WeatherService.Params.lat p) /\ is_Some (WeatherService.Params.lon p)).

(** The [params] of the request that a valid form leads to. *)
Definition form_params (f : Form.t) : WeatherService.Params.t :=
  let base :=
    {| WeatherService.Params.appid := API_KEY;
       WeatherService.Params.units := "metric";
       WeatherService.Params.q := None; WeatherService.Params.zip := None;
       WeatherService.Params.lat := None; WeatherService.Params.lon := None |} in
  match Form.mode f with
  | city => WeatherService.Params.with_q base (JS.trim (Form.city f))
  | zip =>
      WeatherService.Params.with_zip base
        (if JS.truthy (JS.trim (Form.zipCountry f))
         then JS.trim (Form.zip f) +:+ "," +:+ JS.trim (Form.zipCountry f)
         else JS.trim (Form.zip f))
  | coords =>
      WeatherService.Params.with_lat_lon base
        (JS.Number_of_string (Form.lat f)) (JS.Number_of_string (Form.lon f))
  end.

(** The form passes the checks of [buildQuery]. *)
Definition form_is_valid (f : Form.t) : bool :=
  match Form.mode f with
  | city => JS.truthy (JS.trim (Form.city f))
  | zip => JS.truthy (JS.trim (Form.zip f))
  | coords =>
      negb (JS.Number_isNaN (JS.Number_of_string (Form.lat f))
            || JS.Number_isNaN (JS.Number_of_string (Form.lon f)))
  end.

(** The message of the error that [buildQuery] throws in a mode. *)
Definition validation_message (mode : SearchMode) : string :=
  match mode with
  | city => "Enter a city name."
  | zip => "Enter a ZIP/postal code."
  | coords => "Enter valid coordinates."
  end.

(** The form as [resetForm] leaves it. *)
Definition blank_form : Form.t :=
  {| Form.mode := city; Form.city := ""; Form.zip := ""; Form.zipCountry := "us";
     Form.lat := ""; Form.lon := "" |}.

(** [new] is [old] but for its weather. *)
Definition same_identity (old new : SavedForecast.t) : Prop :=
  SavedForecast.key new = SavedForecast.key old
  /\ SavedForecast.mode new = SavedForecast.mode old
  /\ SavedForecast.value new = SavedForecast.value old
  /\ SavedForecast.country new = SavedForecast.country old
  /\ SavedForecast.lat new = SavedForecast.lat old
  /\ SavedForecast.lon new = SavedForecast.lon old.

(** The current page is one of the pages. *)
Definition page_in_range (st : State) : Prop :=
  1 <= currentPage st <= totalPages st.

(** Loading gives the elements that the current collection is written as. *)
Definition stored_is_current (st : State) : Prop :=
  Storage.loadSavedForecasts (localStorage st)
  = (inr (map Json.of_SavedForecast (savedForecasts st)), localStorage st).

(** The key is [forecastKey] of the mode and the value. *)
Definition key_is_derived (f : SavedForecast.t) : Prop :=
  SavedForecast.key f = forecastKey (SavedForecast.mode f) (SavedForecast.value f).

End Coverage.

(** * Properties *)

Arguments JS.Number_toString : simpl never.
Arguments JS.Number_of_string : simpl never.
Arguments JS.Math_round : simpl never.
Arguments JS.trim : simpl never.
Arguments JS.toLowerCase : simpl never.
Arguments JS.includes : simpl never.
Arguments App.status_text : simpl never.

(** Closes a goal between closed terms by evaluation. *)
Ltac by_evaluation := vm_compute; reflexivity.

(** The built-ins on a few inputs. *)

Example trim_ex : JS.trim "  New York " = "New York".
Proof. reflexivity. Qed.
Example lower_ex : JS.toLowerCase "City-LonDon" = "city-london".
Proof. reflexivity. Qed.
Example includes_ex :
  JS.includes "london" "ond" = true /\ JS.includes "london" "x" = false
  /\ JS.includes "" "" = true.
Proof. repeat split; reflexivity. Qed.
Example toString_ex :
  map JS.Number_toString
    [JS.Finite 515 (-1); JS.Finite (-1200) (-2); JS.Finite 1 21; JS.Finite 123 (-9);
     JS.Finite 5 (-3); JS.Finite 0 7; JS.Finite 12345 18; JS.Finite 1 (-7);
     JS.Finite (-15) 20]
  = ["51.5"; "-12"; "1e+21"; "1.23e-7"; "0.005"; "0"; "1.2345e+22"; "1e-7";
     "-1.5e+21"].
Proof. by_evaluation. Qed.
Example round_ex :
  map (fun x => JS.Number_toString (JS.Math_round x))
    [JS.Finite 125 (-1); JS.Finite (-25) (-1); JS.Finite (-26) (-1);
     JS.Finite 1249 (-2); JS.Finite (-2) (-1); JS.NaN]
  = ["13"; "-2"; "-3"; "12"; "0"; "NaN"].
Proof. by_evaluation. Qed.
Example number_ex :
  map JS.Number_of_string
    [""; " 12.50 "; "-.5e1"; "0x1F"; "abc"; "1e"; "-Infinity"; "5."; "."; "0b102";
     "1 2"; "+7"]
  = [JS.Finite 0 0; JS.Finite 1250 (-2); JS.Finite (-5) 0; JS.Finite 31 0; JS.NaN; JS.NaN;
     JS.Infinity true; JS.Finite 5 0; JS.NaN; JS.NaN; JS.NaN; JS.Finite 7 0].
Proof. by_evaluation. Qed.
Example slice_ex :
  JS.slice [1; 2; 3; 4; 5] 1 3 = [2; 3] /\ JS.slice [1; 2; 3] 10 20 = []
  /\ JS.slice [1; 2; 3] (-2) 5 = [2; 3].
Proof. repeat split; reflexivity. Qed.

(** The scenario of the specification: add a city, add a postal code,
    remove the city. *)
Example scenario_keys :
  let st1 := App.run_commands Demo.env [App.Add (Demo.city_form "London")] App.initial_state in
  let st2 := App.run_commands Demo.env [App.Add (Demo.zip_form "10001" "us")] st1 in
  let st3 := App.run_commands Demo.env [App.Remove "city-london"] st2 in
  map Types.SavedForecast.key (App.savedForecasts st1) = ["city-london"]
  /\ map Types.SavedForecast.key (App.savedForecasts st2) = ["zip-10001"; "city-london"]
  /\ map Types.SavedForecast.key (App.savedForecasts st3) = ["zip-10001"].
Proof. vm_compute. repeat split; reflexivity. Qed.

(** ** Strings *)

Lemma prefix_spec (t s : string) :
  String.prefix t s = true <-> exists after, s = t +:+ after.
Proof.
  revert s. induction t as [|c t IH]; intros s.
  - destruct s; simpl; (split; [intros _; eauto | done]).
  - destruct s as [|d s]; simpl.
    + split; [done | by intros [after H]].
    + destruct (Ascii.ascii_dec c d) as [->|Hne].
      * rewrite IH. split; intros [after H]; exists after;
          [by rewrite H | by injection H].
      * split; [done | intros [after H]; by injection H].
Qed.

Lemma includes_spec (s t : string) :
  JS.includes s t = true <-> substring_of t s.
Proof.
  unfold substring_of. induction s as [|c s IH].
  - unfold JS.includes. destruct (String.prefix t "") eqn:Hp.
    + apply prefix_spec in Hp as [after H]. split; [|done].
      intros _. exists "", after. done.
    + split; [done|]. intros (before & after & H).
      destruct before; [|done]. simpl in H.
      assert (String.prefix t "" = true) by (apply prefix_spec; eauto).
      congruence.
  - unfold JS.includes; fold JS.includes. destruct (String.prefix t (String c s)) eqn:Hp.
    + apply prefix_spec in Hp as [after H]. split; [|done].
      intros _. exists "", after. done.
    + rewrite IH. split.
      * intros (before & after & H). exists (String c before), after.
        simpl. by rewrite H.
      * intros (before & after & H). destruct before as [|d before].
        -- simpl in H.
           assert (String.prefix t (String c s) = true)
             by (apply prefix_spec; eauto).
           congruence.
        -- simpl in H. injection H as _ H. eauto.
Qed.

#[local] Instance substring_of_dec (t s : string) : Decision (substring_of t s).
Proof.
  destruct (JS.includes s t) eqn:H.
  - left. by apply includes_spec.
  - right. intros Hs. apply includes_spec in Hs. congruence.
Defined.

Lemma append_assoc (a b c : string) : (a +:+ b) +:+ c = a +:+ b +:+ c.
Proof. induction a as [|x a IH]; [done | by change (String x ((a +:+ b) +:+ c) = String x (a +:+ b +:+ c)); rewrite IH]. Qed.

Lemma truthy_spec (s : string) : JS.truthy s = true <-> s <> "".
Proof. destruct s; simpl; split; congruence. Qed.

Lemma string_eqb_spec (a b : string) : String.eqb a b = true <-> a = b.
Proof. apply String.eqb_eq. Qed.

(** ** Error classification *)

Section ParseError.
Import Thrown.

(** C5, as the code has it.  [parseError] classifies every caught value, in
    this order.  A string is returned as it is.  An object with a request
    and no response gives the network message, whatever its own message.
    An object with a response is decided by the response, whatever its own
    message and its request: a provider message is returned, after
    ["[status] "] when the response carries a status and alone when it
    does not; without a provider message the status gives the 401, 404 or
    429 message or ["API error: status"], and a response with no status
    gives ["API error: Unknown error"].  An object with neither request nor
    response gives its own message when it has one.  Anything else gives
    the fallback.  Every caught value falls under one of these rules. *)
Theorem C5_parseError_precedence :
  (forall s, App.parseError (Str s) = s)
  /\ (forall top, App.parseError (error_object None true top) = App.NETWORK_ERROR)
  /\ (forall r req top m,
        provider_message r = Some m -> m <> "" ->
        App.parseError (error_object (Some r) req top)
        = match carried_status r with
          | Some st => "[" +:+ App.status_text st +:+ "] " +:+ m
          | None => m
          end)
  /\ (forall r req top,
        provider_message r = None \/ provider_message r = Some "" ->
        App.parseError (error_object (Some r) req top)
        = match carried_status r with
          | Some st =>
              if st =? 401 then App.INVALID_KEY
              else if st =? 404 then App.NOT_FOUND
              else if st =? 429 then App.TOO_MANY
              else "API error: " +:+ App.status_text st
          | None => "API error: Unknown error"
          end)
  /\ (forall m, m <> "" ->
        App.parseError (error_object None false (Some m)) = m)
  /\ (forall top, top = None \/ top = Some "" ->
        App.parseError (error_object None false top) = App.FALLBACK)
  /\ App.parseError Other = App.FALLBACK
  /\ (forall e,
        (exists s, e = Str s) \/ e = Other
        \/ exists response req top, e = error_object response req top).
Proof.
  repeat split.
  - intros r req top m Hm Hne.
    unfold App.parseError, error_object, carried_status; cbn.
    rewrite andb_false_r.
    change (ErrorResponse.data r ≫= ErrorData.message) with (provider_message r).
    rewrite Hm; cbn.
    destruct m; [done|]. cbn.
    destruct (ErrorResponse.status r) as [st|]; cbn; [|done].
    destruct (Z.eqb_spec st 0); [done|]. cbn [negb].
    by rewrite !append_assoc.
  - intros r req top Hm.
    unfold App.parseError, error_object, carried_status; cbn.
    rewrite andb_false_r.
    change (ErrorResponse.data r ≫= ErrorData.message) with (provider_message r).
    assert (JS.truthy_opt (provider_message r) = false) as ->
      by (destruct Hm as [-> | ->]; done).
    destruct (ErrorResponse.status r) as [st|]; cbn; [|done].
    destruct (Z.eqb_spec st 0) as [-> | Hst]; [done|]. done.
  - intros m Hm. cbn. by destruct m.
  - intros top [-> | ->]; done.
  - intros [s | [response req top] | ]; [left; eauto | right; right | right; left; done].
    by exists response, req, top.
Qed.

Lemma C5_parseError_precedence_witness :
  App.parseError
    (error_object
       (Some {| ErrorResponse.data := Some {| ErrorData.message := Some "city not found" |};
                ErrorResponse.status := Some 404 |})
       true (Some "Request failed with status code 404"))
  = "[404] city not found"
  /\ App.parseError
       (error_object
          (Some {| ErrorResponse.data := Some {| ErrorData.message := Some "city not found" |};
                   ErrorResponse.status := None |})
          true (Some "Request failed"))
     = "city not found"
  /\ App.parseError
       (error_object
          (Some {| ErrorResponse.data := None; ErrorResponse.status := Some 500 |})
          true (Some "Request failed with status code 500"))
     = "API error: 500"
  /\ App.parseError
       (error_object
          (Some {| ErrorResponse.data := None; ErrorResponse.status := None |})
          false (Some "boom"))
     = "API error: Unknown error"
  /\ App.parseError (Thrown.Error "Enter a city name.") = "Enter a city name.".
Proof.
  destruct C5_parseError_precedence as (_ & _ & Hmsg & Hstatus & Hown & _).
  split; [|split; [|split; [|split]]].
  - rewrite (Hmsg _ _ _ "city not found"); [by_evaluation | reflexivity | discriminate].
  - rewrite (Hmsg _ _ _ "city not found"); [reflexivity | reflexivity | discriminate].
  - rewrite Hstatus; [by_evaluation | left; reflexivity].
  - rewrite Hstatus; [reflexivity | left; reflexivity].
  - apply Hown. discriminate.
Defined.

(** C5 as the claim words it, for every caught value: a response with a
    provider message gives ["[status] message"], and an object to which
    none of the string, network and response-with-status rules applies
    gives its own message.  A response without a status gives the bare
    provider message, and ["API error: Unknown error"] when it has no
    provider message either, whatever the object's own message. *)
Lemma C5_response_without_status_counterexample :
  ~ (forall r req top m,
       provider_message r = Some m -> m <> "" ->
       exists st,
         App.parseError (error_object (Some r) req top)
         = "[" +:+ App.status_text st +:+ "] " +:+ m)
  /\ ~ (forall response req m,
          ~ (req = true /\ response = None) ->
          (forall r, response = Some r ->
                     provider_message r = None /\ ErrorResponse.status r = None) ->
          m <> "" ->
          App.parseError (error_object response req (Some m)) = m).
Proof.
  split.
  - intros H.
    destruct (H {| ErrorResponse.data := Some {| ErrorData.message := Some "city not found" |};
                   ErrorResponse.status := None |}
                true (Some "Request failed") "city not found" eq_refl ltac:(discriminate))
      as [st Hst].
    cbn in Hst. discriminate.
  - intros H.
    specialize (H (Some {| ErrorResponse.data := None; ErrorResponse.status := None |})
                  false "boom").
    cbn in H.
    assert ("API error: Unknown error" = "boom") as Habs; [|discriminate].
    apply H.
    + intros [? ?]. discriminate.
    + intros r [= <-]. by split.
    + discriminate.
Qed.

Lemma parseError_no_status (d : option ErrorData.t) (req : bool) (top : option string) :
  App.parseError
    (error_object (Some {| ErrorResponse.data := d; ErrorResponse.status := None |}) req top)
  = match provider_message {| ErrorResponse.data := d; ErrorResponse.status := None |} with
    | Some (String c m) => String c m
    | _ => "API error: Unknown error"
    end.
Proof.
  unfold App.parseError, error_object, provider_message; cbn.
  rewrite andb_false_r.
  destruct d as [[[[|c m]|]]|]; reflexivity.
Qed.

End ParseError.

(** ** Search and pagination *)

Section Views.
Import Types App.

Lemma filtered_set_currentPage (p : Z) (st : State) :
  filtered (set_currentPage p st) = filtered st.
Proof. reflexivity. Qed.

Lemma slice_page {A} (l : list A) (k : Z) :
  0 <= k -> JS.slice l k (k + PAGE_SIZE) = take 10 (drop (Z.to_nat k) l).
Proof.
  intros Hk. unfold JS.slice, JS.clamp_index, PAGE_SIZE.
  destruct (Z.ltb_spec k 0); [lia|].
  destruct (Z.ltb_spec (k + 10) 0); [lia|].
  destruct (Z.le_gt_cases (Z.of_nat (length l)) k) as [Hlen|Hlen].
  - rewrite Z.min_r by lia.
    rewrite !drop_ge by lia. by rewrite !take_nil.
  - rewrite (Z.min_l k) by lia.
    destruct (Z.le_gt_cases (k + 10) (Z.of_nat (length l))).
    + rewrite Z.min_l by lia. f_equal. lia.
    + rewrite Z.min_r by lia.
      rewrite !take_ge; [done | | ]; rewrite length_drop; lia.
Qed.

Lemma paged_spec (st : State) :
  1 <= currentPage st ->
  paged st = take 10 (drop (Z.to_nat (10 * (currentPage st - 1))) (filtered st)).
Proof.
  intros Hp. unfold paged. rewrite slice_page by (unfold PAGE_SIZE; lia).
  do 2 f_equal. unfold PAGE_SIZE. lia.
Qed.

Lemma ceil_div_10 (n : Z) :
  0 <= n ->
  10 * (JS.Math_ceil_div n PAGE_SIZE - 1) < n <= 10 * JS.Math_ceil_div n PAGE_SIZE.
Proof.
  intros Hn. unfold JS.Math_ceil_div, PAGE_SIZE.
  pose proof (Z.div_mod (- n) 10 ltac:(lia)).
  pose proof (Z.mod_pos_bound (- n) 10 ltac:(lia)). lia.
Qed.

Lemma totalPages_spec (st : State) :
  totalPages st
  = Z.max 1 (JS.Math_ceil_div (Z.of_nat (length (filtered st))) PAGE_SIZE).
Proof.
  unfold totalPages.
  destruct (Z.eqb_spec (JS.Math_ceil_div (Z.of_nat (length (filtered st))) PAGE_SIZE) 0)
    as [-> | _]; done.
Qed.

(** The pages of [l] from page [first + 1] on, [n] of them. *)
Lemma pages_concat {A} (n first : nat) (l : list A) :
  (length l <= 10 * (first + n))%nat ->
  concat (map (fun p => take 10 (drop (10 * p) l)) (seq first n))
  = drop (10 * first) l.
Proof.
  revert first. induction n as [|n IH]; intros first Hlen; cbn [seq map concat].
  - rewrite drop_ge by lia. done.
  - rewrite IH by lia.
    replace (10 * S first)%nat with (10 * first + 10)%nat by lia.
    rewrite <- drop_drop. apply take_drop.
Qed.

(** C7. With a page size of 10, the number of pages is [max 1 c] for the
    [c] with [10 (c - 1) < N <= 10 c], the ceiling of [N / 10]; page [p] is
    the slice of at most 10 items that starts at [10 (p - 1)]; the pages
    [1 .. totalPages], in order, concatenate to the filtered sequence; and
    the watcher of the filtered sequence puts the current page back to 1
    when it exceeds the number of pages, and leaves it otherwise. *)
Theorem C7_pagination (st : State) :
  let l := filtered st in
  let N := Z.of_nat (length l) in
  (exists c, 10 * (c - 1) < N <= 10 * c /\ totalPages st = Z.max 1 c)
  /\ (forall p, 1 <= p ->
        let k := Z.to_nat (10 * (p - 1)) in
        let page := paged (set_currentPage p st) in
        page = take 10 (drop k l)
        /\ (length page <= 10)%nat
        /\ l = take k l ++ page ++ drop (k + 10) l)
  /\ concat (map (fun p => paged (set_currentPage p st)) (page_numbers st)) = l
  /\ (currentPage st > totalPages st -> currentPage (watch_filtered st) = 1)
  /\ (currentPage st <= totalPages st -> watch_filtered st = st).
Proof.
  cbv zeta. split; [|split; [|split; [|split]]].
  - exists (JS.Math_ceil_div (Z.of_nat (length (filtered st))) PAGE_SIZE).
    split; [apply ceil_div_10; lia | apply totalPages_spec].
  - intros p Hp.
    rewrite paged_spec by done. cbn [currentPage set_currentPage].
    rewrite filtered_set_currentPage.
    split; [done|]. split.
    + rewrite length_take. lia.
    + rewrite <- drop_drop.
      by rewrite (take_drop 10), take_drop.
  - unfold page_numbers. rewrite map_map.
    pose proof (ceil_div_10 (Z.of_nat (length (filtered st))) ltac:(lia)) as Hc.
    rewrite totalPages_spec in *.
    set (n := Z.to_nat (Z.max 1 (JS.Math_ceil_div (Z.of_nat (length (filtered st))) PAGE_SIZE))).
    transitivity (concat (map (fun p => take 10 (drop (10 * p) (filtered st))) (seq 0 n))).
    + rewrite <- (fmap_S_seq 0 n). rewrite <- list_fmap_compose.
      f_equal. apply map_ext. intros p. unfold compose.
      rewrite paged_spec by (cbn; lia).
      cbn [currentPage set_currentPage]. rewrite filtered_set_currentPage.
      do 2 f_equal. lia.
    + rewrite pages_concat; [done|]. subst n. lia.
  - intros Hgt. unfold watch_filtered.
    destruct (Z.gtb_spec (currentPage st) (totalPages st)); [done | lia].
  - intros Hle. unfold watch_filtered.
    destruct (Z.gtb_spec (currentPage st) (totalPages st)); [lia | done].
Qed.

Lemma C7_pagination_witness :
  let st := set_savedForecasts Demo.demo_collection initial_state in
  totalPages st = 3
  /\ map SavedForecast.value (paged (set_currentPage 3 st)) = ["20"; "21"; "22"]
  /\ currentPage (watch_filtered (set_currentPage 4 st)) = 1.
Proof.
  cbv zeta.
  set (st := set_savedForecasts Demo.demo_collection initial_state).
  destruct (C7_pagination st) as (_ & Hpage & _ & _).
  destruct (C7_pagination (set_currentPage 4 st)) as (_ & _ & _ & Hwatch & _).
  split; [reflexivity|]. split.
  - destruct (Hpage 3 ltac:(lia)) as (-> & _). reflexivity.
  - apply Hwatch. reflexivity.
Defined.

End Views.

Section Search.
Import Types App.

#[local] Instance Matches_dec term f : Decision (Matches term f).
Proof. unfold Matches. apply _. Defined.

Lemma existsb_Exists {A} (p : A -> bool) (P : A -> Prop) (l : list A) :
  (forall x, p x = true <-> P x) -> existsb p l = true <-> Exists P l.
Proof.
  intros Hp. rewrite existsb_exists, Exists_exists.
  split; intros (x & Hin & Hx); exists x;
    (split; [by apply list_elem_of_In | by apply Hp]).
Qed.

Lemma filter_bool_Prop {A} (p : A -> bool) (P : A -> Prop)
    `{!forall x, Decision (P x)} (l : list A) :
  (forall x, p x = true <-> P x) -> List.filter p l = filter P l.
Proof.
  intros Hp. induction l as [|x l IH]; [done|].
  cbn [List.filter]. rewrite filter_cons, IH.
  destruct (p x) eqn:Hx, (decide (P x)) as [HP|HP]; try done.
  - apply Hp in Hx. done.
  - apply Hp in HP. congruence.
Qed.

(** An empty text contains no non-empty term, so dropping the empty
    texts first changes nothing. *)
Lemma matches_spec (term : string) (f : SavedForecast.t) :
  term <> "" ->
  existsb (fun field => JS.includes (JS.toLowerCase field) term)
    (List.filter JS.truthy (search_fields f)) = true
  <-> Matches term f.
Proof.
  intros Hterm. unfold Matches.
  change (search_fields f) with (searched_texts f).
  rewrite <- (existsb_Exists
                (fun field => JS.includes (JS.toLowerCase field) term));
    [|intros x; apply includes_spec].
  induction (searched_texts f) as [|x l IH]; [done|].
  cbn [List.filter existsb]. destruct x as [|c x].
  - cbn [JS.truthy]. rewrite IH.
    assert (JS.includes (JS.toLowerCase "") term = false) as ->; [|done].
    destruct (JS.includes (JS.toLowerCase "") term) eqn:H; [|done].
    apply includes_spec in H as (before & after & H).
    destruct before; [|done]. destruct term; done.
  - cbn [JS.truthy existsb]. by rewrite !orb_true_iff, IH.
Qed.

(** C6, as the code has it.  The term is trimmed first.  A term that is
    empty once trimmed gives the whole collection; any other term gives,
    in the order of the collection, exactly the entries with the
    lower-cased trimmed term inside the lower-cased name, country,
    description or rounded temperature. *)
Theorem C6_search (st : State) :
  let term := JS.toLowerCase (JS.trim (searchTerm st)) in
  (JS.trim (searchTerm st) = "" -> filtered st = savedForecasts st)
  /\ (JS.trim (searchTerm st) <> "" ->
      filtered st = filter (Matches term) (savedForecasts st)).
Proof.
  cbv zeta. unfold filtered. split.
  - intros ->. done.
  - intros Hne.
    assert (JS.toLowerCase (JS.trim (searchTerm st)) <> "") as Hterm
      by (destruct (JS.trim (searchTerm st)); done).
    destruct (JS.toLowerCase (JS.trim (searchTerm st))) as [|c term] eqn:E; [done|].
    cbn [JS.truthy negb].
    apply filter_bool_Prop. intros f. by apply matches_spec.
Qed.

Lemma C6_search_witness :
  filtered (set_searchTerm "  LON " Demo.search_demo)
  = [Demo.demo_entry "London" (JS.Finite 125 (-1))]
  /\ filtered (set_searchTerm "   " Demo.search_demo) = savedForecasts Demo.search_demo
  /\ map SavedForecast.value (filtered (set_searchTerm "20" Demo.search_demo)) = ["Paris"].
Proof.
  split; [|split].
  - destruct (C6_search (set_searchTerm "  LON " Demo.search_demo)) as [_ H].
    rewrite H; [by_evaluation | vm_compute; discriminate].
  - destruct (C6_search (set_searchTerm "   " Demo.search_demo)) as [H _].
    apply H. reflexivity.
  - destruct (C6_search (set_searchTerm "20" Demo.search_demo)) as [_ H].
    rewrite H; [by_evaluation | vm_compute; discriminate].
Defined.

(** C6 as the claim words it: every non-empty term, untrimmed, selects
    the entries that contain it.  The term [" "] is not empty and occurs
    in no text of the entry, yet the entry is returned. *)
Lemma C6_untrimmed_term_counterexample :
  ~ (forall st : State,
       searchTerm st <> "" ->
       filtered st
       = filter (Matches (JS.toLowerCase (searchTerm st))) (savedForecasts st)).
Proof.
  intros H.
  specialize (H (set_searchTerm " "
                   (set_savedForecasts [Demo.demo_entry "London" (JS.Finite 125 (-1))]
                      initial_state))).
  vm_compute in H. specialize (H ltac:(discriminate)). discriminate.
Qed.

End Search.

(** ** The collection under add, remove and refresh *)

Section Collection.
Import Types App.

Lemma findIndex_none {A} (p : A -> bool) (l : list A) :
  Forall (fun x => p x = false) l -> JS.findIndex p l = -1.
Proof.
  intros H. unfold JS.findIndex.
  destruct (list_find _ l) as [[i x]|] eqn:E; [|done].
  apply list_find_Some in E as (Hl & Hx & _).
  apply list_elem_of_lookup_2 in Hl.
  rewrite Forall_forall in H. rewrite (H x Hl) in Hx. done.
Qed.

Lemma findIndex_first {A} (p : A -> bool) (l1 l2 : list A) (x : A) :
  Forall (fun y => p y = false) l1 -> p x = true ->
  JS.findIndex p (l1 ++ x :: l2) = Z.of_nat (length l1).
Proof.
  intros H1 Hx. unfold JS.findIndex.
  assert (list_find (fun y => p y = true) (l1 ++ x :: l2) = Some (length l1, x)) as ->; [|done].
  apply list_find_Some. split; [|split; [done|]].
  - by rewrite list_lookup_middle.
  - intros j y Hj Hlt. rewrite lookup_app_l in Hj by done.
    apply list_elem_of_lookup_2 in Hj.
    rewrite Forall_forall in H1. rewrite (H1 y Hj). done.
Qed.

Lemma splice_middle {A} (l1 l2 : list A) (x item : A) :
  JS.splice (l1 ++ x :: l2) (Z.of_nat (length l1)) 1 item = l1 ++ item :: l2.
Proof.
  unfold JS.splice, JS.clamp_index. rewrite length_app. cbn [length].
  destruct (Z.ltb_spec (Z.of_nat (length l1)) 0); [lia|].
  rewrite Z.min_l by lia.
  replace (Z.min (Z.max 1 0) _) with 1 by lia.
  rewrite Nat2Z.id.
  replace (Z.to_nat (Z.of_nat (length l1) + 1)) with (length l1 + 1)%nat by lia.
  rewrite take_app_length. rewrite <- drop_drop, drop_app_length. done.
Qed.

(** The first entry with a key, and what is before and after it. *)
Lemma first_with_key (k : string) (l : list SavedForecast.t) :
  Forall (fun f => key_is k f = false) l
  \/ exists l1 old l2,
       l = l1 ++ old :: l2 /\ key_is k old = true
       /\ Forall (fun f => key_is k f = false) l1.
Proof.
  induction l as [|x l [IH | (l1 & old & l2 & -> & Hold & Hl1)]].
  - left. constructor.
  - destruct (key_is k x) eqn:E.
    + right. exists [], x, l. by repeat split.
    + left. by constructor.
  - destruct (key_is k x) eqn:E.
    + right. exists [], x, (l1 ++ old :: l2). by repeat split.
    + right. exists (x :: l1), old, l2. repeat split; [done|]. by constructor.
Qed.

Lemma upsert_replace item l1 old l2 :
  key_is (SavedForecast.key item) old = true ->
  Forall (fun f => key_is (SavedForecast.key item) f = false) l1 ->
  upsert item (l1 ++ old :: l2) = l1 ++ item :: l2.
Proof.
  intros Hold Hl1. unfold upsert.
  rewrite findIndex_first by done.
  destruct (Z.leb_spec 0 (Z.of_nat (length l1))); [|lia].
  apply splice_middle.
Qed.

Lemma upsert_fresh item l :
  Forall (fun f => key_is (SavedForecast.key item) f = false) l ->
  upsert item l = item :: l.
Proof. intros H. unfold upsert. by rewrite findIndex_none. Qed.

Variable env : Env.

(** *** Each step of a handler, as a function of the state *)

Lemma buildQuery_run st : buildQuery st = ((buildQuery st).1, st).
Proof.
  unfold buildQuery, Eff.bind, Eff.gets, Eff.throw, Eff.ret.
  destruct (Form.mode (form st)); repeat case_match; done.
Qed.

Lemma buildQuery_form st st' :
  form st = form st' -> (buildQuery st).1 = (buildQuery st').1.
Proof.
  intros Hf. unfold buildQuery, Eff.bind, Eff.gets, Eff.throw, Eff.ret.
  rewrite Hf. destruct (Form.mode (form st')); repeat case_match; done.
Qed.

Lemma fetchWeather_run query st :
  fetchWeather env query st
  = ((WeatherService.fetchWeather (network env) query (requests st)).1,
     set_requests
       (WeatherService.fetchWeather (network env) query (requests st)).2 st).
Proof.
  unfold fetchWeather, Eff.zoom.
  by destruct (WeatherService.fetchWeather (network env) query (requests st)).
Qed.

Lemma mapWeather_run raw st :
  mapWeather env raw st
  = (inr (mapWeather_at (clock env (clock_reads st)) raw),
     set_clock_reads (S (clock_reads st)) st).
Proof. reflexivity. Qed.

Lemma persistForecasts_run items st :
  persistForecasts items st
  = (inr tt,
     set_localStorage (Storage.persistForecasts items (localStorage st)).2 st).
Proof.
  unfold persistForecasts, Eff.zoom, Storage.persistForecasts, Eff.try_catch,
    Storage.setItem, Eff.ret.
  by destruct (Storage.writable (localStorage st)).
Qed.

Lemma notify_run type text st :
  notify env type text st
  = (inr tt,
     set_notifications (notifications st ++ [notification env type text st])
       (set_clock_reads (S (clock_reads st)) st)).
Proof. reflexivity. Qed.

Lemma handleAdd_run st :
  handleAdd env st
  = (inr tt,
     let st1 := set_isLoading true st in
     match (buildQuery st).1 with
     | inl e => set_isLoading false (notify env danger (parseError e) st1).2
     | inr q =>
         let fetched :=
           WeatherService.fetchWeather (network env) (with_apiKey q) (requests st) in
         let st2 := set_requests fetched.2 st1 in
         match fetched.1 with
         | inl e => set_isLoading false (notify env danger (parseError e) st2).2
         | inr raw =>
             let item := query_item q (mapWeather_at (clock env (clock_reads st)) raw) in
             let items := upsert item (savedForecasts st) in
             let st3 :=
               set_savedForecasts items (set_clock_reads (S (clock_reads st)) st2) in
             let st4 := (persistForecasts items st3).2 in
             let st5 := (notify env success "Forecast added." st4).2 in
             set_isLoading false (resetForm (set_modalOpen false st5)).2
         end
     end).
Proof.
  unfold handleAdd.
  change (negb (JS.truthy API_KEY)) with false. cbv iota.
  unfold Eff.finally, Eff.try_catch, Eff.bind, Eff.modify.
  rewrite buildQuery_run.
  rewrite (buildQuery_form (set_isLoading true st) st eq_refl).
  destruct (buildQuery st).1 as [e|q]; [done|].
  rewrite fetchWeather_run. cbn [requests set_isLoading].
  destruct (WeatherService.fetchWeather (network env) (with_apiKey q) (requests st))
    as [[e|raw] sent]; [done|].
  cbn [fst snd]. rewrite mapWeather_run. unfold Eff.gets.
  cbn [savedForecasts set_clock_reads set_requests set_isLoading clock_reads].
  unfold upsert.
  change (SavedForecast.key (query_item q ?w)) with (query_key q).
  change (key_is (query_key q)) with
    (fun f => String.eqb (SavedForecast.key f) (query_key q)).
  destruct (0 <=? JS.findIndex _ (savedForecasts st));
    cbn [savedForecasts set_savedForecasts];
    rewrite !persistForecasts_run, !notify_run; reflexivity.
Qed.

Lemma handleAdd_success st q raw :
  add_outcome env st = inr (q, raw) ->
  savedForecasts (Eff.exec (handleAdd env) st)
  = upsert (query_item q (mapWeather_at (clock env (clock_reads st)) raw))
      (savedForecasts st).
Proof.
  unfold add_outcome, Eff.exec. intros H. rewrite handleAdd_run.
  cbn [fst snd] in *.
  destruct (buildQuery st).1 as [e|q']; [done|].
  rewrite fetchWeather_run in H. cbn [fst snd] in *.
  destruct (WeatherService.fetchWeather _ _ _).1 as [e|raw']; [done|].
  injection H as -> ->. by rewrite persistForecasts_run.
Qed.

Lemma handleAdd_failure st e :
  add_outcome env st = inl e ->
  let st' := Eff.exec (handleAdd env) st in
  savedForecasts st' = savedForecasts st
  /\ localStorage st' = localStorage st
  /\ exists n, notifications st' = notifications st ++ [n]
               /\ AppNotification.type n = danger
               /\ AppNotification.text n = parseError e.
Proof.
  unfold add_outcome, Eff.exec. intros H. rewrite handleAdd_run.
  cbn [fst snd] in *.
  destruct (buildQuery st).1 as [e'|q'].
  - injection H as ->. cbn. eauto 10.
  - rewrite fetchWeather_run in H. cbn [fst snd] in *.
    destruct (WeatherService.fetchWeather _ _ _).1 as [e'|raw']; [|done].
    injection H as ->. cbn. eauto 10.
Qed.

Lemma removeForecast_run key st :
  removeForecast env key st
  = (inr tt,
     let items :=
       List.filter (fun f => negb (key_is key f)) (savedForecasts st) in
     (notify env info "Forecast removed."
        (persistForecasts items (set_savedForecasts items st)).2).2).
Proof.
  unfold removeForecast, Eff.bind, Eff.modify, Eff.gets.
  cbn [savedForecasts set_savedForecasts].
  rewrite !persistForecasts_run, !notify_run. reflexivity.
Qed.

(** *** The batch of a refresh *)

Lemma refresh_item_run item st :
  refresh_item env item st
  = let fetched :=
      WeatherService.fetchWeather (network env) (refresh_query item) (requests st) in
    match fetched.1 with
    | inl e => (inl e, set_requests fetched.2 st)
    | inr raw =>
        (inr (SavedForecast.with_weather item
                (mapWeather_at (clock env (clock_reads st)) raw)),
         set_clock_reads (S (clock_reads st)) (set_requests fetched.2 st))
    end.
Proof.
  unfold refresh_item, Eff.bind. rewrite fetchWeather_run. cbv zeta.
  destruct (WeatherService.fetchWeather _ _ _).1; reflexivity.
Qed.

Lemma settle_all_run items st :
  settle_all env items st
  = (inr (batch_outcomes env items (fetch_batch env items (requests st)) (clock_reads st)),
     set_clock_reads
       (clock_reads st + resolved (fetch_batch env items (requests st)))%nat
       (set_requests (batch_requests env items (requests st)) st)).
Proof.
  revert st. induction items as [|item rest IH]; intros st.
  - cbn. unfold Eff.ret, resolved. cbn. rewrite Nat.add_0_r. by destruct st.
  - cbn [settle_all fetch_batch batch_requests batch_outcomes].
    unfold Eff.bind, Eff.settle, Eff.ret.
    rewrite refresh_item_run. cbv zeta.
    destruct (WeatherService.fetchWeather (network env) (refresh_query item) (requests st))
      as [[e|raw] sent]; cbn [fst snd]; rewrite IH; cbn; unfold resolved; cbn;
      f_equal; unfold set_clock_reads, set_requests; cbn; f_equal; lia.
Qed.

Lemma Promise_all_rejects {A} (outcomes : list (Thrown.t + A)) :
  (exists i e, outcomes !! i = Some (inl e)) ->
  exists e, Promise_all outcomes = inl e.
Proof.
  induction outcomes as [|[e|a] rest IH]; intros (i & e' & Hi).
  - done.
  - by exists e.
  - destruct i as [|i]; [done|]. cbn in Hi.
    destruct IH as [e Hrest]; [eauto|]. exists e. cbn. by rewrite Hrest.
Qed.

Lemma Promise_all_resolves {A} (outcomes : list (Thrown.t + A)) (values : list A) :
  Promise_all outcomes = inr values <-> outcomes = map inr values.
Proof.
  revert values. induction outcomes as [|[e|a] rest IH]; intros values; cbn.
  - split; [intros [= <-]; done | by destruct values].
  - split; [done | by destruct values].
  - destruct (Promise_all rest) as [e|vs].
    + split; [done|]. destruct values as [|v values]; [done|].
      intros [= -> Hrest]. by apply IH in Hrest.
    + split.
      * intros [= <-]. cbn. f_equal. by apply IH.
      * destruct values as [|v values]; [done|].
        intros [= -> Hrest]. apply IH in Hrest. congruence.
Qed.

Lemma batch_outcomes_lookup_rejected items replies reads i e :
  length replies = length items ->
  replies !! i = Some (inl e) ->
  batch_outcomes env items replies reads !! i = Some (inl e).
Proof.
  revert replies reads i.
  induction items as [|item items IH]; intros [|[e'|raw] replies] reads i Hlen Hi;
    try done; destruct i as [|i]; simplify_eq/=; try done;
    apply IH; (done || lia).
Qed.

Lemma fetch_batch_length items sent :
  length (fetch_batch env items sent) = length items.
Proof.
  revert sent. induction items as [|item items IH]; intros sent; [done|].
  cbn. by rewrite IH.
Qed.

Lemma batch_outcomes_resolved items raws reads :
  batch_outcomes env items (map inr raws) reads
  = map inr (refreshed_with env items raws reads).
Proof.
  revert raws reads. induction items as [|item items IH]; intros [|raw raws] reads;
    try done. cbn. by rewrite IH.
Qed.

Lemma refreshed_with_lookup items raws reads i item raw :
  items !! i = Some item -> raws !! i = Some raw ->
  refreshed_with env items raws reads !! i
  = Some (SavedForecast.with_weather item
            (mapWeather_at (clock env (reads + i)) raw)).
Proof.
  revert raws reads i. induction items as [|x items IH];
    intros [|r raws] reads [|i] Hi Hr; try done.
  - cbn in *. injection Hi as ->. injection Hr as ->. by rewrite Nat.add_0_r.
  - change (refreshed_with env items raws (S reads) !! i
            = Some (SavedForecast.with_weather item
                      (mapWeather_at (clock env (reads + S i)) raw))).
    rewrite (IH raws (S reads) i Hi Hr). do 4 f_equal. lia.
Qed.

Lemma refreshed_with_length items raws reads :
  length raws = length items ->
  length (refreshed_with env items raws reads) = length items.
Proof.
  revert raws reads. induction items as [|x items IH];
    intros [|r raws] reads Hlen; try done. cbn in *. rewrite IH; lia.
Qed.

Lemma refreshed_with_keys items raws reads :
  length raws = length items ->
  map SavedForecast.key (refreshed_with env items raws reads)
  = map SavedForecast.key items.
Proof.
  revert raws reads. induction items as [|x items IH];
    intros [|r raws] reads Hlen; try done. cbn in *. rewrite IH; [done | lia].
Qed.

Lemma all_resolved (replies : list WeatherService.Reply) :
  (forall i e, replies !! i <> Some (inl e)) ->
  exists raws, replies = map inr raws.
Proof.
  induction replies as [|[e|raw] replies IH]; intros H.
  - by exists [].
  - by destruct (H O e).
  - destruct IH as [raws ->]; [intros i e; apply (H (S i) e)|].
    by exists (raw :: raws).
Qed.

Lemma refreshAll_run showMessage st :
  refreshAll env showMessage st
  = (inr tt,
     let items := savedForecasts st in
     if Z.of_nat (length items) =? 0 then st
     else
       let replies := fetch_batch env items (requests st) in
       let st1 :=
         set_clock_reads (clock_reads st + resolved replies)%nat
           (set_requests (batch_requests env items (requests st)) st) in
       match Promise_all (batch_outcomes env items replies (clock_reads st)) with
       | inl e => (notify env danger (parseError e) st1).2
       | inr refreshed =>
           let st2 :=
             (persistForecasts refreshed (set_savedForecasts refreshed st1)).2 in
           if showMessage then (notify env success "Forecasts refreshed." st2).2
           else st2
       end).
Proof.
  unfold refreshAll, Eff.bind, Eff.gets.
  change (negb (JS.truthy API_KEY)) with false. cbn [orb].
  destruct (Z.of_nat (length (savedForecasts st)) =? 0); [done|].
  unfold Eff.try_catch, Eff.lift_result, Eff.modify, Eff.ret.
  rewrite settle_all_run.
  destruct (Promise_all _) as [e|refreshed]; [done|].
  rewrite !persistForecasts_run. by destruct showMessage.
Qed.

Lemma replies_cases (replies : list WeatherService.Reply) :
  (exists i e, replies !! i = Some (inl e)) \/ (exists raws, replies = map inr raws).
Proof.
  induction replies as [|[e|raw] replies [(i & e' & Hi) | (raws & ->)]].
  - right. by exists [].
  - left. by exists O, e.
  - left. by exists O, e.
  - left. by exists (S i), e'.
  - right. by exists (raw :: raws).
Qed.

(** A refresh either changes nothing in the collection and the storage
    and pushes one [danger] notification, or replaces the collection by
    the refreshed entries and writes them. *)
Lemma refreshAll_cases showMessage st :
  let items := savedForecasts st in
  let replies := fetch_batch env items (requests st) in
  let st' := Eff.exec (refreshAll env showMessage) st in
  (items = [] /\ st' = st)
  \/ (items <> [] /\ (exists i e, replies !! i = Some (inl e))
      /\ savedForecasts st' = items /\ localStorage st' = localStorage st
      /\ exists n, notifications st' = notifications st ++ [n]
                   /\ AppNotification.type n = danger)
  \/ (items <> [] /\
      exists raws,
        replies = map inr raws
        /\ savedForecasts st' = refreshed_with env items raws (clock_reads st)
        /\ localStorage st'
           = (Storage.persistForecasts (savedForecasts st') (localStorage st)).2
        /\ notifications st'
           = notifications st ++
             (if showMessage
              then [ {| AppNotification.id :=
                          JS.of_Z (clock env (clock_reads st + length items));
                        AppNotification.type := success;
                        AppNotification.text := "Forecasts refreshed." |} ]
              else [])).
Proof.
  cbv zeta. unfold Eff.exec. rewrite refreshAll_run. cbn [snd].
  destruct (savedForecasts st) as [|item items] eqn:Hitems.
  { left. done. }
  right. rewrite <- Hitems.
  assert (savedForecasts st <> []) as Hne by (by rewrite Hitems).
  destruct (Z.eqb_spec (Z.of_nat (length (savedForecasts st))) 0) as [Hz|_].
  { rewrite Hitems in Hz. cbn in Hz. lia. }
  destruct (replies_cases (fetch_batch env (savedForecasts st) (requests st)))
    as [Hfail | [raws Hraws]].
  - left. split; [done|]. split; [done|].
    destruct Hfail as (i & e & Hi).
    destruct (Promise_all_rejects
                (batch_outcomes env (savedForecasts st)
                   (fetch_batch env (savedForecasts st) (requests st)) (clock_reads st)))
      as [e' ->].
    { exists i, e. apply batch_outcomes_lookup_rejected; [|done].
      apply fetch_batch_length. }
    cbn. eauto 10.
  - right. split; [done|]. exists raws. split; [done|].
    rewrite Hraws, batch_outcomes_resolved.
    assert (Promise_all
              (map inr (refreshed_with env (savedForecasts st) raws (clock_reads st)))
            = inr (refreshed_with env (savedForecasts st) raws (clock_reads st))) as ->
      by (by apply Promise_all_resolves).
    rewrite persistForecasts_run.
    assert (resolved (map inr raws) = length (savedForecasts st)) as Hres.
    { rewrite <- (fetch_batch_length (savedForecasts st) (requests st)), Hraws.
      unfold resolved. rewrite length_map. clear.
      induction raws; cbn; [done | by f_equal]. }
    destruct showMessage; cbn; rewrite ?Hres, ?app_nil_r; done.
Qed.

(** C1. [refreshAll] is all-or-nothing.  When the fetch of any entry
    fails, the collection and the storage are left as they were and
    exactly one notification, of type [danger], is pushed.  When the
    collection is not empty and every fetch succeeds, every entry keeps
    its place and gets the weather mapped from its own response, and the
    refreshed collection is written to storage by one call of [setItem].
    And the collection or the storage change only when every fetch has
    succeeded. *)
Theorem C1_refreshAll_all_or_nothing (showMessage : bool) (st : State) :
  let items := savedForecasts st in
  let replies := fetch_batch env items (requests st) in
  let st' := Eff.exec (refreshAll env showMessage) st in
  ((exists i e, replies !! i = Some (inl e)) ->
     savedForecasts st' = items
     /\ localStorage st' = localStorage st
     /\ exists n, notifications st' = notifications st ++ [n]
                  /\ AppNotification.type n = danger)
  /\ (items <> [] -> (forall i e, replies !! i <> Some (inl e)) ->
      length (savedForecasts st') = length items
      /\ (forall i item raw,
            items !! i = Some item -> replies !! i = Some (inr raw) ->
            savedForecasts st' !! i
            = Some (SavedForecast.with_weather item
                      (mapWeather_at (clock env (clock_reads st + i)) raw)))
      /\ localStorage st'
         = (Storage.persistForecasts (savedForecasts st') (localStorage st)).2
      /\ Storage.setItem_calls (localStorage st')
         = S (Storage.setItem_calls (localStorage st))
      /\ (Storage.writable (localStorage st) = true ->
          Storage.entries (localStorage st') !! Storage.STORAGE_KEY
          = Some (Json.JSON_stringify (savedForecasts st'))))
  /\ (savedForecasts st' <> items \/ localStorage st' <> localStorage st ->
      forall i e, replies !! i <> Some (inl e)).
Proof.
  cbv zeta.
  destruct (refreshAll_cases showMessage st)
    as [[Hnil ->] | [(Hne & Hfail & Hsame & Hls & Hn) | (Hne & raws & Hraws & Hnew & Hls & Hn)]].
  - split; [|split].
    + rewrite Hnil. cbn. by intros (i & e & Hi).
    + done.
    + intros [H | H]; done.
  - split; [|split].
    + done.
    + intros _ Hall. destruct Hfail as (i & e & Hi). by destruct (Hall i e).
    + intros [H | H]; done.
  - assert (forall i e, fetch_batch env (savedForecasts st) (requests st) !! i <> Some (inl e))
      as Hall.
    { intros i e. rewrite Hraws, list_lookup_fmap.
      by destruct (raws !! i). }
    assert (length raws = length (savedForecasts st)) as Hlen.
    { rewrite <- (fetch_batch_length (savedForecasts st) (requests st)), Hraws.
      by rewrite length_map. }
    split; [|split].
    + intros (i & e & Hi). by destruct (Hall i e).
    + intros _ _. split; [|split; [|split; [|split]]].
      * rewrite Hnew. by apply refreshed_with_length.
      * intros i item raw Hitem Hraw. rewrite Hnew.
        apply refreshed_with_lookup; [done|].
        rewrite Hraws, list_lookup_fmap in Hraw.
        destruct (raws !! i); by simplify_eq/=.
      * done.
      * rewrite Hls. unfold Storage.persistForecasts, Eff.try_catch, Storage.setItem.
        by destruct (Storage.writable (localStorage st)).
      * intros Hw. rewrite Hls.
        unfold Storage.persistForecasts, Eff.try_catch, Storage.setItem.
        rewrite Hw. cbn. by rewrite lookup_insert_eq.
    + done.
Qed.

(** *** Keys *)

Lemma key_is_true k f : key_is k f = true <-> SavedForecast.key f = k.
Proof. apply String.eqb_eq. Qed.

Lemma key_is_false k f : key_is k f = false <-> SavedForecast.key f <> k.
Proof. apply String.eqb_neq. Qed.

Lemma no_key_Forall k (l : list SavedForecast.t) :
  Forall (fun f => key_is k f = false) l
  <-> k ∉ map SavedForecast.key l.
Proof.
  rewrite Forall_forall, list_elem_of_fmap. split.
  - intros H (f & -> & Hf). apply H in Hf. by apply key_is_false in Hf.
  - intros H f Hf. apply key_is_false. intros <-. apply H. eauto.
Qed.

Lemma upsert_NoDup item l :
  NoDup (map SavedForecast.key l) ->
  NoDup (map SavedForecast.key (upsert item l)).
Proof.
  intros Hl.
  destruct (first_with_key (SavedForecast.key item) l)
    as [Hfresh | (l1 & old & l2 & -> & Hold & Hl1)].
  - rewrite upsert_fresh by done. cbn. apply NoDup_cons. split; [|done].
    by apply no_key_Forall.
  - rewrite upsert_replace by done.
    apply key_is_true in Hold.
    rewrite map_app in *. cbn in *. by rewrite <- Hold.
Qed.

Lemma filter_keys_NoDup (p : SavedForecast.t -> bool) l :
  NoDup (map SavedForecast.key l) ->
  NoDup (map SavedForecast.key (List.filter p l)).
Proof.
  induction l as [|x l IH]; [done|]. cbn. intros [Hx Hl]%NoDup_cons.
  destruct (p x); [|by apply IH]. cbn. apply NoDup_cons. split; [|by apply IH].
  intros (f & Hk & Hf)%list_elem_of_fmap. apply Hx.
  apply list_elem_of_fmap. exists f. split; [done|].
  apply list_elem_of_In in Hf. apply filter_In in Hf as [Hf _].
  by apply list_elem_of_In.
Qed.

Lemma run_command_Add f st :
  Eff.exec (run_command env (Add f)) st = Eff.exec (handleAdd env) (set_form f st).
Proof. reflexivity. Qed.

Lemma handleAdd_cases st :
  (exists e, add_outcome env st = inl e
             /\ savedForecasts (Eff.exec (handleAdd env) st) = savedForecasts st)
  \/ (exists q raw,
        add_outcome env st = inr (q, raw)
        /\ savedForecasts (Eff.exec (handleAdd env) st)
           = upsert (query_item q (mapWeather_at (clock env (clock_reads st)) raw))
               (savedForecasts st)).
Proof.
  destruct (add_outcome env st) as [e|[q raw]] eqn:E.
  - left. exists e. split; [done|]. by apply (handleAdd_failure st e).
  - right. exists q, raw. split; [done|]. by apply handleAdd_success.
Qed.

Lemma run_command_NoDup c st :
  NoDup (map SavedForecast.key (savedForecasts st)) ->
  NoDup (map SavedForecast.key (savedForecasts (Eff.exec (run_command env c) st))).
Proof.
  intros Hst. destruct c as [f | key | showMessage].
  - rewrite run_command_Add.
    destruct (handleAdd_cases (set_form f st))
      as [(e & _ & ->) | (q & raw & _ & ->)]; [done|].
    by apply upsert_NoDup.
  - unfold Eff.exec. cbn [run_command]. rewrite removeForecast_run.
    cbn [snd]. rewrite persistForecasts_run, notify_run. cbn.
    by apply filter_keys_NoDup.
  - cbn [run_command].
    destruct (refreshAll_cases showMessage st)
      as [[_ ->] | [(_ & _ & -> & _) | (_ & raws & Hraws & -> & _)]]; [done..|].
    rewrite refreshed_with_keys; [done|].
    rewrite <- (fetch_batch_length (savedForecasts st) (requests st)), Hraws.
    by rewrite length_map.
Qed.

(** C2. Whatever adds, removes and refreshes are run from the empty
    collection, and whatever the network answers, no two entries of the
    resulting collection have the same key. *)
Theorem C2_key_uniqueness (commands : list Command) :
  NoDup (map SavedForecast.key
           (savedForecasts (run_commands env commands initial_state))).
Proof.
  assert (forall st, NoDup (map SavedForecast.key (savedForecasts st)) ->
                     NoDup (map SavedForecast.key
                              (savedForecasts (run_commands env commands st)))) as H.
  { induction commands as [|c cs IH]; intros st Hst; [done|].
    cbn. apply IH. by apply run_command_NoDup. }
  apply H. cbn. constructor.
Qed.

Lemma handleAdd_replaces st q raw l1 old l2 :
  add_outcome env st = inr (q, raw) ->
  savedForecasts st = l1 ++ old :: l2 ->
  key_is (query_key q) old = true ->
  Forall (fun f => key_is (query_key q) f = false) l1 ->
  savedForecasts (Eff.exec (handleAdd env) st)
  = l1 ++ query_item q (mapWeather_at (clock env (clock_reads st)) raw) :: l2.
Proof.
  intros Hok Hst Hold Hl1. rewrite (handleAdd_success st q raw Hok), Hst.
  by apply upsert_replace.
Qed.

Lemma handleAdd_prepends st q raw :
  add_outcome env st = inr (q, raw) ->
  Forall (fun f => key_is (query_key q) f = false) (savedForecasts st) ->
  savedForecasts (Eff.exec (handleAdd env) st)
  = query_item q (mapWeather_at (clock env (clock_reads st)) raw) :: savedForecasts st.
Proof.
  intros Hok Hfresh. rewrite (handleAdd_success st q raw Hok).
  by apply upsert_fresh.
Qed.

Lemma no_key_before k (l : list SavedForecast.t) :
  (forall f, f ∈ l -> SavedForecast.key f <> k)
  <-> Forall (fun f => key_is k f = false) l.
Proof.
  rewrite Forall_forall. split; intros H f Hf; apply key_is_false; auto.
Qed.

(** C3. A successful add whose key is the key of an entry puts its item
    in the place of the first such entry and leaves the entries before
    and after it as they were; a successful add whose key is the key of
    no entry puts its item at the front. *)
Theorem C3_upsert_position (st : State) q raw :
  add_outcome env st = inr (q, raw) ->
  let item := query_item q (mapWeather_at (clock env (clock_reads st)) raw) in
  let st' := Eff.exec (handleAdd env) st in
  SavedForecast.key item = query_key q
  /\ (forall l1 old l2,
        savedForecasts st = l1 ++ old :: l2 ->
        SavedForecast.key old = query_key q ->
        (forall f, f ∈ l1 -> SavedForecast.key f <> query_key q) ->
        savedForecasts st' = l1 ++ item :: l2)
  /\ ((forall f, f ∈ savedForecasts st -> SavedForecast.key f <> query_key q) ->
      savedForecasts st' = item :: savedForecasts st).
Proof.
  intros Hok. cbv zeta. split; [done|]. split.
  - intros l1 old l2 Hst Hold Hl1.
    apply (handleAdd_replaces st q raw l1 old l2 Hok Hst).
    + by apply key_is_true.
    + by apply no_key_before.
  - intros Hfresh. apply (handleAdd_prepends st q raw Hok).
    by apply no_key_before.
Qed.

(** C8, as the code has it.  The [updatedAt] of a weather that replaces
    another, by a re-add or by a refresh, is the reading of the clock taken
    when the response is mapped; it is later than the replaced one when
    that reading is. *)
Theorem C8_updatedAt_is_clock_reading (st : State) :
  (forall q raw l1 old l2,
     add_outcome env st = inr (q, raw) ->
     savedForecasts st = l1 ++ old :: l2 ->
     SavedForecast.key old = query_key q ->
     (forall f, f ∈ l1 -> SavedForecast.key f <> query_key q) ->
     exists new,
       savedForecasts (Eff.exec (handleAdd env) st) = l1 ++ new :: l2
       /\ WeatherView.updatedAt (SavedForecast.weather new)
          = JS.of_Z (clock env (clock_reads st))
       /\ (JS.ltb (WeatherView.updatedAt (SavedForecast.weather old))
             (JS.of_Z (clock env (clock_reads st))) = true ->
           JS.ltb (WeatherView.updatedAt (SavedForecast.weather old))
             (WeatherView.updatedAt (SavedForecast.weather new)) = true))
  /\ (forall showMessage i old,
        (forall j e, fetch_batch env (savedForecasts st) (requests st) !! j <> Some (inl e)) ->
        savedForecasts st !! i = Some old ->
        exists new,
          savedForecasts (Eff.exec (refreshAll env showMessage) st) !! i = Some new
          /\ WeatherView.updatedAt (SavedForecast.weather new)
             = JS.of_Z (clock env (clock_reads st + i))
          /\ (JS.ltb (WeatherView.updatedAt (SavedForecast.weather old))
                (JS.of_Z (clock env (clock_reads st + i))) = true ->
              JS.ltb (WeatherView.updatedAt (SavedForecast.weather old))
                (WeatherView.updatedAt (SavedForecast.weather new)) = true)).
Proof.
  split.
  - intros q raw l1 old l2 Hok Hst Hold Hl1.
    eexists. split; [apply (handleAdd_replaces st q raw l1 old l2 Hok Hst);
      [by apply key_is_true | by apply no_key_before] | done].
  - intros showMessage i old Hall Hold.
    destruct (replies_cases (fetch_batch env (savedForecasts st) (requests st)))
      as [(j & e & Hj) | [raws Hraws]]; [by destruct (Hall j e)|].
    destruct (refreshAll_cases showMessage st)
      as [[Hnil _] | [(_ & (j & e & Hj) & _) | (_ & raws' & Hraws' & Hnew & _)]].
    + rewrite Hnil in Hold. done.
    + by destruct (Hall j e).
    + assert (is_Some (raws' !! i)) as [raw Hraw].
      { apply lookup_lt_is_Some.
        rewrite <- (length_map (@inr Thrown.t _) raws'), <- Hraws', fetch_batch_length.
        by apply lookup_lt_Some in Hold. }
      eexists. split.
      * rewrite Hnew. by apply refreshed_with_lookup.
      * done.
Qed.

(** *** Postal codes *)

Lemma buildQuery_zip st q :
  Form.mode (form st) = zip ->
  (buildQuery st).1 = inr q ->
  JS.trim (Form.zip (form st)) <> ""
  /\ q = {| Query.mode := zip; Query.city := None;
            Query.zip := Some (JS.trim (Form.zip (form st)));
            Query.country :=
              JS.or_else (Some (JS.trim (Form.zipCountry (form st)))) None;
            Query.lat := None; Query.lon := None |}.
Proof.
  intros Hmode. unfold buildQuery, Eff.bind, Eff.gets. rewrite Hmode.
  destruct (JS.trim (Form.zip (form st))) eqn:E; cbn; [done|].
  intros [= <-]. done.
Qed.

Lemma add_outcome_query st q raw :
  add_outcome env st = inr (q, raw) -> (buildQuery st).1 = inr q.
Proof.
  unfold add_outcome. destruct (buildQuery st).1 as [e|q']; [done|].
  destruct (fetchWeather env (with_apiKey q') st).1; [done|]. by intros [= -> _].
Qed.

Lemma zip_query_key z c :
  z <> "" ->
  query_key {| Query.mode := zip; Query.city := None; Query.zip := Some z;
               Query.country := c; Query.lat := None; Query.lon := None |}
  = forecastKey zip z.
Proof. intros Hz. unfold query_key. cbn. by destruct z. Qed.

(** C10. The key of a postal-code entry is made of the mode and the
    trimmed postal code only.  Two successful adds by postal code with the
    same trimmed code have the same key, whatever their country codes; the
    second one puts its item, with its own country, in the place of the
    item of the first, and the collection keeps its length and its keys. *)
Theorem C10_zip_key_ignores_country (st : State) f1 f2 q1 raw1 q2 raw2 :
  Form.mode f1 = zip -> Form.mode f2 = zip ->
  JS.trim (Form.zip f1) = JS.trim (Form.zip f2) ->
  let st1 := Eff.exec (run_command env (Add f1)) st in
  let st2 := Eff.exec (run_command env (Add f2)) st1 in
  add_outcome env (set_form f1 st) = inr (q1, raw1) ->
  add_outcome env (set_form f2 st1) = inr (q2, raw2) ->
  query_key q1 = forecastKey zip (JS.trim (Form.zip f1))
  /\ query_key q2 = query_key q1
  /\ exists l1 l2 item1 item2,
       savedForecasts st1 = l1 ++ item1 :: l2
       /\ savedForecasts st2 = l1 ++ item2 :: l2
       /\ SavedForecast.key item1 = query_key q1
       /\ SavedForecast.key item2 = query_key q1
       /\ SavedForecast.country item1
          = JS.or_else (Some (JS.trim (Form.zipCountry f1))) None
       /\ SavedForecast.country item2
          = JS.or_else (Some (JS.trim (Form.zipCountry f2))) None
       /\ (forall f, f ∈ l1 -> SavedForecast.key f <> query_key q1).
Proof.
  intros Hm1 Hm2 Hzip. cbv zeta. rewrite !run_command_Add. intros Hok1 Hok2.
  destruct (buildQuery_zip (set_form f1 st) q1 Hm1 (add_outcome_query _ _ _ Hok1))
    as [Hz1 Hq1].
  destruct (buildQuery_zip (set_form f2 (Eff.exec (handleAdd env) (set_form f1 st)))
              q2 Hm2 (add_outcome_query _ _ _ Hok2)) as [Hz2 Hq2].
  cbn [form set_form] in Hz1, Hq1, Hz2, Hq2.
  assert (query_key q1 = forecastKey zip (JS.trim (Form.zip f1))) as Hk1
    by (rewrite Hq1; by apply zip_query_key).
  assert (query_key q2 = query_key q1) as Hk2
    by (rewrite Hk1, Hq2, Hzip; by apply zip_query_key).
  split; [done|]. split; [done|].
  pose proof (handleAdd_replaces (set_form f1 st) q1 raw1) as Hrep1.
  pose proof (handleAdd_prepends _ q1 raw1 Hok1) as Hfresh1.
  pose proof (fun l1 old l2 => handleAdd_replaces _ q2 raw2 l1 old l2 Hok2) as Hrep2.
  assert (SavedForecast.key
            (query_item q2 (mapWeather_at
               (clock env (clock_reads (Eff.exec (handleAdd env) (set_form f1 st)))) raw2))
          = query_key q2) as Hkey2 by done.
  cbn [savedForecasts set_form clock_reads] in *.
  set (item1 := query_item q1 (mapWeather_at (clock env (clock_reads st)) raw1)) in *.
  set (st1 := Eff.exec (handleAdd env) (set_form f1 st)) in *.
  set (item2 := query_item q2 (mapWeather_at (clock env (clock_reads st1)) raw2)) in *.
  assert (exists l1 l2,
            savedForecasts st1 = l1 ++ item1 :: l2
            /\ forall f, f ∈ l1 -> SavedForecast.key f <> query_key q1)
    as (l1 & l2 & Hst1 & Hl1).
  { destruct (first_with_key (query_key q1) (savedForecasts st))
      as [Hnone | (l1 & old & l2 & Hst & Hold & Hl1)].
    - exists [], (savedForecasts st). split.
      + by apply Hfresh1.
      + intros f Hf. by apply elem_of_nil in Hf.
    - exists l1, l2. split; [|by apply no_key_before].
      by apply (Hrep1 l1 old l2 Hok1 Hst). }
  clear Hrep1 Hfresh1.
  exists l1, l2, item1, item2.
  split; [done|]. split.
  { apply (Hrep2 l1 item1 l2 Hst1); rewrite Hk2.
    - by apply key_is_true.
    - by apply no_key_before. }
  split; [done|]. split; [by rewrite <- Hk2|].
  split; [subst item1; cbn; by rewrite Hq1|].
  split; [subst item2; cbn; by rewrite Hq2 | done].
Qed.

End Collection.

Lemma C1_refreshAll_all_or_nothing_witness :
  let st := Demo.with_entries ["London"; "Atlantis"; "Paris"] in
  let st' := Eff.exec (App.refreshAll Demo.env true) st in
  App.savedForecasts st' = App.savedForecasts st
  /\ App.localStorage st' = App.localStorage st
  /\ exists n, App.notifications st' = App.notifications st ++ [n]
               /\ Types.AppNotification.type n = Types.danger.
Proof.
  cbv zeta.
  destruct (C1_refreshAll_all_or_nothing Demo.env true
              (Demo.with_entries ["London"; "Atlantis"; "Paris"])) as [H _].
  apply H. exists 1%nat, Demo.not_found. by_evaluation.
Defined.

Example refreshAll_failure_text :
  map Types.AppNotification.text
    (App.notifications
       (Eff.exec (App.refreshAll Demo.env true)
          (Demo.with_entries ["London"; "Atlantis"; "Paris"])))
  = ["[404] city not found"].
Proof. by_evaluation. Qed.

Example refreshAll_success :
  let st' := Eff.exec (App.refreshAll Demo.env true) (Demo.with_entries ["London"; "Paris"]) in
  map (fun f => Types.WeatherView.updatedAt (Types.SavedForecast.weather f))
    (App.savedForecasts st')
  = [JS.Finite 1700000000000 0; JS.Finite 1700000000001 0]
  /\ Storage.setItem_calls (App.localStorage st') = 1%nat
  /\ map Types.AppNotification.text (App.notifications st') = ["Forecasts refreshed."].
Proof. vm_compute. repeat split; reflexivity. Qed.

Lemma C3_upsert_position_witness :
  let st := Demo.with_entries ["Paris"; "London"] in
  App.savedForecasts
    (Eff.exec (App.handleAdd Demo.env) (App.set_form (Demo.city_form " london ") st))
  = [Demo.entry "Paris" 1699999000000;
     App.query_item (Demo.city_query "london")
       (App.mapWeather_at 1700000000000 (Demo.response "london"))]
  /\ App.savedForecasts
       (Eff.exec (App.handleAdd Demo.env) (App.set_form (Demo.city_form "Berlin") st))
     = App.query_item (Demo.city_query "Berlin")
         (App.mapWeather_at 1700000000000 (Demo.response "Berlin"))
       :: App.savedForecasts st.
Proof.
  cbv zeta. split.
  - destruct (C3_upsert_position Demo.env
                (App.set_form (Demo.city_form " london ")
                   (Demo.with_entries ["Paris"; "London"]))
                (Demo.city_query "london") (Demo.response "london")
                ltac:(by_evaluation)) as (_ & H & _).
    apply (H [Demo.entry "Paris" 1699999000000] (Demo.entry "London" 1699999000000) []).
    + reflexivity.
    + by_evaluation.
    + intros f Hf. apply list_elem_of_singleton in Hf as ->. vm_compute. discriminate.
  - destruct (C3_upsert_position Demo.env
                (App.set_form (Demo.city_form "Berlin")
                   (Demo.with_entries ["Paris"; "London"]))
                (Demo.city_query "Berlin") (Demo.response "Berlin")
                ltac:(by_evaluation)) as (_ & _ & H).
    apply H. intros f Hf.
    apply elem_of_cons in Hf as [-> | Hf]; [vm_compute; discriminate|].
    apply list_elem_of_singleton in Hf as ->. vm_compute. discriminate.
Defined.

Lemma C8_updatedAt_is_clock_reading_witness :
  let st := App.set_form (Demo.city_form "London") (Demo.with_entries ["Paris"; "London"]) in
  exists new,
    App.savedForecasts (Eff.exec (App.handleAdd Demo.env) st)
    = [Demo.entry "Paris" 1699999000000; new]
    /\ Types.WeatherView.updatedAt (Types.SavedForecast.weather new)
       = JS.of_Z 1700000000000
    /\ JS.ltb (JS.of_Z 1699999000000)
         (Types.WeatherView.updatedAt (Types.SavedForecast.weather new)) = true.
Proof.
  cbv zeta.
  destruct (C8_updatedAt_is_clock_reading Demo.env
              (App.set_form (Demo.city_form "London")
                 (Demo.with_entries ["Paris"; "London"]))) as [H _].
  destruct (H (Demo.city_query "London") (Demo.response "London")
              [Demo.entry "Paris" 1699999000000] (Demo.entry "London" 1699999000000) [])
    as (new & Hnew & Hstamp & Hlater).
  - by_evaluation.
  - reflexivity.
  - by_evaluation.
  - intros f Hf. apply list_elem_of_singleton in Hf as ->. vm_compute. discriminate.
  - exists new. split; [exact Hnew|]. split; [exact Hstamp|].
    apply Hlater. by_evaluation.
Defined.

(** C8 as the claim words it: each replacement has a later [updatedAt].
    Two adds of the same city whose responses are mapped within the same
    millisecond give the same [updatedAt]. *)
Lemma C8_strictly_later_counterexample :
  ~ (forall (env : App.Env) (st : App.State) q raw l1 old new l2,
       add_outcome env st = inr (q, raw) ->
       App.savedForecasts st = l1 ++ old :: l2 ->
       Types.SavedForecast.key old = App.query_key q ->
       App.savedForecasts (Eff.exec (App.handleAdd env) st) = l1 ++ new :: l2 ->
       JS.ltb (Types.WeatherView.updatedAt (Types.SavedForecast.weather old))
         (Types.WeatherView.updatedAt (Types.SavedForecast.weather new)) = true).
Proof.
  intros H.
  pose (st1 := Eff.exec (App.run_command Demo.env_same_ms (App.Add (Demo.city_form "London")))
                 App.initial_state).
  specialize (H Demo.env_same_ms (App.set_form (Demo.city_form "London") st1)
                (Demo.city_query "London") (Demo.response "London")
                [] (Demo.entry "London" 1700000000000)
                (Demo.entry "London" 1700000000000) []).
  vm_compute in H.
  specialize (H eq_refl eq_refl eq_refl eq_refl). discriminate.
Qed.

Lemma C10_zip_key_ignores_country_witness :
  let st1 := Eff.exec (App.run_command Demo.env (App.Add (Demo.zip_form "10001" "us")))
               App.initial_state in
  let st2 := Eff.exec (App.run_command Demo.env (App.Add (Demo.zip_form " 10001 " "de"))) st1 in
  exists item1 item2,
    App.savedForecasts st1 = [item1] /\ App.savedForecasts st2 = [item2]
    /\ Types.SavedForecast.key item1 = "zip-10001"
    /\ Types.SavedForecast.key item2 = "zip-10001"
    /\ Types.SavedForecast.country item1 = Some "us"
    /\ Types.SavedForecast.country item2 = Some "de".
Proof.
  cbv zeta.
  destruct (C10_zip_key_ignores_country Demo.env App.initial_state
              (Demo.zip_form "10001" "us") (Demo.zip_form " 10001 " "de")
              (Demo.zip_query "10001" (Some "us")) (Demo.response "10001,us")
              (Demo.zip_query "10001" (Some "de")) (Demo.response "10001,de")
              eq_refl eq_refl ltac:(by_evaluation)
              ltac:(by_evaluation) ltac:(by_evaluation))
    as (Hk1 & Hk2 & l1 & l2 & item1 & item2 & Hst1 & Hst2 & Hi1 & Hi2 & Hc1 & Hc2 & _).
  assert (l1 = [] /\ l2 = []) as [-> ->].
  { assert (length (l1 ++ item1 :: l2) = 1%nat) as Hlen
      by (rewrite <- Hst1; by_evaluation).
    rewrite length_app in Hlen. cbn in Hlen.
    destruct l1, l2; cbn in Hlen; try lia. done. }
  exists item1, item2.
  split; [exact Hst1|]. split; [exact Hst2|].
  split; [rewrite Hi1, Hk1; by_evaluation|].
  split; [rewrite Hi2, Hk1; by_evaluation|].
  split; [rewrite Hc1; by_evaluation | rewrite Hc2; by_evaluation].
Defined.

(** ** Validation of coordinates *)

Section Coordinates.
Import Types WeatherService.

(** C4, as the code has it.  [fetchWeather] rejects a query by
    coordinates, without calling the client, when the latitude or the
    longitude is undefined; when both are defined it calls the client with
    them as [lat] and [lon], whatever numbers they are.  A coordinate that
    is not a number is rejected before that, by [buildQuery]: [handleAdd]
    then makes no call to the client. *)
Theorem C4_coords_validation :
  (forall net query sent,
     WeatherQuery.mode query = coords ->
     WeatherQuery.lat query = None \/ WeatherQuery.lon query = None ->
     fetchWeather net query sent
     = (inl (Thrown.Error "Latitude and longitude are required"), sent))
  /\ (forall net query sent la lo,
        WeatherQuery.mode query = coords ->
        WeatherQuery.lat query = Some la -> WeatherQuery.lon query = Some lo ->
        let params := coords_params (WeatherQuery.apiKey query) la lo in
        fetchWeather net query sent = (net (length sent) params, sent ++ [params]))
  /\ (forall env st,
        App.Form.mode (App.form st) = coords ->
        JS.Number_of_string (App.Form.lat (App.form st)) = JS.NaN
        \/ JS.Number_of_string (App.Form.lon (App.form st)) = JS.NaN ->
        App.buildQuery st = (inl (Thrown.Error "Enter valid coordinates."), st)
        /\ App.requests (Eff.exec (App.handleAdd env) st) = App.requests st).
Proof.
  split; [|split].
  - intros net query sent Hmode Hnone.
    unfold fetchWeather, Eff.bind. rewrite Hmode.
    destruct Hnone as [-> | ->]; [done|].
    by destruct (WeatherQuery.lat query).
  - intros net query sent la lo Hmode Hla Hlo. cbv zeta.
    unfold fetchWeather, Eff.bind, Eff.try_catch, client_get, Eff.throw.
    rewrite Hmode, Hla, Hlo. cbn.
    by destruct (net (length sent) _).
  - intros env st Hmode Hnan.
    assert (App.buildQuery st = (inl (Thrown.Error "Enter valid coordinates."), st)) as Hb.
    { unfold App.buildQuery, Eff.bind, Eff.gets. rewrite Hmode.
      destruct Hnan as [-> | ->]; [done|]. by rewrite orb_true_r. }
    split; [done|].
    unfold Eff.exec. rewrite handleAdd_run. cbn [snd]. by rewrite Hb.
Qed.

Lemma C4_coords_validation_witness :
  fetchWeather Demo.known_places
    {| WeatherQuery.mode := coords; WeatherQuery.city := None;
       WeatherQuery.zip := None; WeatherQuery.country := None;
       WeatherQuery.lat := Some (JS.Finite 515 (-1)); WeatherQuery.lon := None;
       WeatherQuery.apiKey := App.API_KEY |} []
  = (inl (Thrown.Error "Latitude and longitude are required"), [])
  /\ fetchWeather Demo.known_places
       {| WeatherQuery.mode := coords; WeatherQuery.city := None;
          WeatherQuery.zip := None; WeatherQuery.country := None;
          WeatherQuery.lat := Some (JS.Finite 515 (-1));
          WeatherQuery.lon := Some (JS.Finite (-12) (-2));
          WeatherQuery.apiKey := App.API_KEY |} []
     = (inr (Demo.response "here"),
        [coords_params App.API_KEY (JS.Finite 515 (-1)) (JS.Finite (-12) (-2))])
  /\ App.requests
       (Eff.exec (App.handleAdd Demo.env)
          (App.set_form
             {| App.Form.mode := coords; App.Form.city := ""; App.Form.zip := "";
                App.Form.zipCountry := "us"; App.Form.lat := "north";
                App.Form.lon := "0.12" |} App.initial_state))
     = [].
Proof.
  destruct C4_coords_validation as (Hundefined & Hdefined & Hnan).
  split; [|split].
  - apply Hundefined; [reflexivity | right; reflexivity].
  - rewrite (Hdefined Demo.known_places _ [] (JS.Finite 515 (-1))
               (JS.Finite (-12) (-2))); reflexivity.
  - apply (Hnan Demo.env); [reflexivity | left; by_evaluation].
Defined.

(** C4 as the claim words it: [fetchWeather] fails, before any request,
    also when a coordinate is [NaN].  It does not: the request goes out
    with [lat=NaN]. *)
Lemma C4_NaN_reaches_client_counterexample :
  ~ (forall net query sent,
       WeatherQuery.mode query = coords ->
       WeatherQuery.lat query = None \/ WeatherQuery.lon query = None
       \/ WeatherQuery.lat query = Some JS.NaN \/ WeatherQuery.lon query = Some JS.NaN ->
       exists e, fetchWeather net query sent = (inl e, sent)).
Proof.
  intros H.
  destruct (H Demo.known_places
              {| WeatherQuery.mode := coords; WeatherQuery.city := None;
                 WeatherQuery.zip := None; WeatherQuery.country := None;
                 WeatherQuery.lat := Some JS.NaN;
                 WeatherQuery.lon := Some (JS.Finite 0 0);
                 WeatherQuery.apiKey := App.API_KEY |} []
              eq_refl (or_intror (or_intror (or_introl eq_refl)))) as [e He].
  vm_compute in He. discriminate.
Qed.

End Coordinates.

(** ** Persistence *)

Section Persistence.
Import Types Storage.

Lemma SearchMode_text_inv (m : SearchMode) :
  SearchMode_of_text (SearchMode_text m) = Some m.
Proof. by destruct m. Qed.

Lemma to_of_SavedForecast (f : SavedForecast.t) :
  finite_numbers f = true ->
  Json.to_SavedForecast (Json.of_SavedForecast f) = Some f.
Proof.
  destruct f as [key mode value country lat lon
                   [id name wcountry description icon temperature humidity wind
                      pressure sunrise sunset updatedAt]].
  unfold finite_numbers. cbn [SavedForecast.lat SavedForecast.lon SavedForecast.weather
    WeatherView.id WeatherView.temperature WeatherView.humidity WeatherView.wind
    WeatherView.pressure WeatherView.sunrise WeatherView.sunset WeatherView.updatedAt].
  intros H. repeat (apply andb_prop in H as [H ?]).
  destruct id, temperature, humidity, wind, pressure, sunrise, sunset, updatedAt;
    try discriminate.
  destruct lat as [[]|], lon as [[]|]; try discriminate;
    destruct country; cbn; rewrite SearchMode_text_inv; reflexivity.
Qed.

Lemma persist_then_load items ls :
  healthy ls ->
  loadSavedForecasts (persistForecasts items ls).2
  = (inr (map Json.of_SavedForecast items), (persistForecasts items ls).2).
Proof.
  intros [Hr Hw].
  unfold persistForecasts, loadSavedForecasts, Eff.try_catch, Eff.bind, setItem, getItem.
  rewrite Hw. cbn. rewrite Hr. by rewrite lookup_insert_eq.
Qed.

(** [loadSavedForecasts] never throws and leaves the storage as it is;
    what is not an array is read as the empty collection. *)
Lemma loadSavedForecasts_total ls :
  exists elements, loadSavedForecasts ls = (inr elements, ls).
Proof.
  unfold loadSavedForecasts, Eff.try_catch, Eff.bind, getItem, Eff.ret, Eff.lift_result.
  destruct (readable ls); [|by eauto].
  destruct (entries ls !! STORAGE_KEY) as [[j|raw]|]; cbn; [| |by eauto].
  - destruct j; eauto.
  - destruct (JS.truthy raw); cbn; eauto.
Qed.

Example load_of_an_object_is_empty :
  (loadSavedForecasts
     {| entries := {[ STORAGE_KEY := Json.Doc (Json.Obj [("key", Json.Str "city-london")]) ]};
        readable := true; writable := true; setItem_calls := O |}).1
  = inr [].
Proof. by_evaluation. Qed.

(** C9, as the code has it.  On a healthy storage, saving items whose
    numbers are all finite and loading gives back an array that reads as
    the same items, in the same order. *)
Theorem C9_round_trip (items : list SavedForecast.t) (ls : LocalStorage) :
  healthy ls ->
  Forall (fun f => finite_numbers f = true) items ->
  let ls' := (persistForecasts items ls).2 in
  exists loaded,
    loadSavedForecasts ls' = (inr loaded, ls')
    /\ map Json.to_SavedForecast loaded = map Some items.
Proof.
  intros Hls Hfinite. cbv zeta. eexists. split; [by apply persist_then_load|].
  rewrite map_map. apply map_ext_Forall.
  eapply Forall_impl; [exact Hfinite|]. intros f Hf. by apply to_of_SavedForecast.
Qed.

Lemma C9_round_trip_witness :
  let items := [Demo.entry "London" 1700000000000;
                App.query_item
                  {| App.Query.mode := coords; App.Query.city := None;
                     App.Query.zip := None; App.Query.country := None;
                     App.Query.lat := Some (JS.Finite 515 (-1));
                     App.Query.lon := Some (JS.Finite (-12) (-2)) |}
                  (App.mapWeather_at 1700000000001 (Demo.response "here"))] in
  let ls' := (persistForecasts items App.empty_storage).2 in
  exists loaded,
    loadSavedForecasts ls' = (inr loaded, ls')
    /\ map Json.to_SavedForecast loaded = map Some items.
Proof.
  cbv zeta. apply C9_round_trip.
  - split; reflexivity.
  - repeat constructor.
Defined.

(** C9 as the claim words it: every sequence of items comes back equal.
    A temperature that is [Infinity] is written [null], and what is loaded
    has [null] for its temperature. *)
Lemma C9_not_finite_counterexample :
  ~ (forall (items : list SavedForecast.t) (ls : LocalStorage),
       healthy ls ->
       let ls' := (persistForecasts items ls).2 in
       exists loaded,
         loadSavedForecasts ls' = (inr loaded, ls')
         /\ map Json.to_SavedForecast loaded = map Some items).
Proof.
  intros H.
  destruct (H [Demo.overflowed] App.empty_storage (conj eq_refl eq_refl))
    as (loaded & Hload & Hsame).
  rewrite persist_then_load in Hload by (split; reflexivity).
  injection Hload as <-. vm_compute in Hsame. discriminate.
Qed.

Example overflowed_temperature_is_null :
  match (loadSavedForecasts (persistForecasts [Demo.overflowed] App.empty_storage).2).1 with
  | inr [j] => Json.get "weather" j ≫= Json.get "temperature"
  | _ => None
  end = Some Json.Null.
Proof. by_evaluation. Qed.

End Persistence.

(** * Further properties *)

Section StringLaws.

Lemma trimStart_clean s : starts_clean (JS.trimStart s).
Proof.
  induction s as [|c s IH]; cbn; [done|].
  destruct (JS.is_whitespace c) eqn:E; [done | by cbn].
Qed.

Lemma trimStart_of_clean s : starts_clean s -> JS.trimStart s = s.
Proof. destruct s as [|c s]; cbn; [done|]. by intros ->. Qed.

Lemma trimEnd_clean s : starts_clean s -> starts_clean (JS.trimEnd s).
Proof.
  destruct s as [|c s]; cbn; [done|]. intros Hc.
  destruct (JS.trimEnd s); cbn; [by rewrite Hc | done].
Qed.

Lemma trimEnd_idempotent s : JS.trimEnd (JS.trimEnd s) = JS.trimEnd s.
Proof.
  induction s as [|c s IH]; cbn; [done|].
  destruct (JS.trimEnd s) as [|d t] eqn:E.
  - destruct (JS.is_whitespace c) eqn:Hc; cbn; [done | by rewrite Hc].
  - cbn in *. by rewrite IH.
Qed.

Lemma trim_idempotent s : JS.trim (JS.trim s) = JS.trim s.
Proof.
  unfold JS.trim.
  rewrite (trimStart_of_clean (JS.trimEnd (JS.trimStart s))).
  - apply trimEnd_idempotent.
  - apply trimEnd_clean, trimStart_clean.
Qed.

Lemma lower_char_idempotent c : JS.lower_char (JS.lower_char c) = JS.lower_char c.
Proof. destruct c as [[] [] [] [] [] [] [] []]; reflexivity. Qed.

Lemma toLowerCase_idempotent s : JS.toLowerCase (JS.toLowerCase s) = JS.toLowerCase s.
Proof.
  induction s as [|c s IH]; [done|].
  change (String (JS.lower_char (JS.lower_char c)) (JS.toLowerCase (JS.toLowerCase s))
          = String (JS.lower_char c) (JS.toLowerCase s)).
  by rewrite lower_char_idempotent, IH.
Qed.

Lemma toLowerCase_app a b :
  JS.toLowerCase (a +:+ b) = JS.toLowerCase a +:+ JS.toLowerCase b.
Proof.
  induction a as [|c a IH]; [done|].
  change (String (JS.lower_char c) (JS.toLowerCase (a +:+ b))
          = String (JS.lower_char c) (JS.toLowerCase a +:+ JS.toLowerCase b)).
  by rewrite IH.
Qed.

End StringLaws.

Section Requests.
Import Types App.

(** X1. [fetchWeather] calls the client at most once.  Either it makes
    no call and throws a validation [Error], or it makes exactly one call
    and returns what the client answers, resolved or rejected, unchanged;
    the params of that call carry the key of the query, metric units and
    exactly one way of naming the place. *)
Theorem fetchWeather_one_call net query sent :
  let result := WeatherService.fetchWeather net query sent in
  (result.2 = sent /\ exists msg, result.1 = inl (Thrown.Error msg))
  \/ (exists p,
        result.2 = sent ++ [p] /\ result.1 = net (length sent) p
        /\ WeatherService.Params.appid p = WeatherService.WeatherQuery.apiKey query
        /\ WeatherService.Params.units p = "metric"
        /\ one_selector p).
Proof.
  cbv zeta.
  unfold WeatherService.fetchWeather, Eff.bind, Eff.try_catch, WeatherService.client_get,
    Eff.throw, Eff.ret, one_selector.
  destruct (WeatherService.WeatherQuery.mode query).
  - destruct (WeatherService.WeatherQuery.city query) as [c|]; [|left; cbn; eauto].
    destruct (JS.truthy (JS.trim c)); [|left; cbn; eauto].
    right. eexists. cbn [fst snd].
    split; [by destruct (net _ _)|]. split; [by destruct (net _ _)|].
    cbn. eauto 10.
  - destruct (WeatherService.WeatherQuery.zip query) as [z|]; [|left; cbn; eauto].
    destruct (JS.truthy (JS.trim z)); [|left; cbn; eauto].
    right. eexists. cbn [fst snd].
    split; [by destruct (net _ _)|]. split; [by destruct (net _ _)|].
    cbn. eauto 10.
  - destruct (WeatherService.WeatherQuery.lat query) as [la|],
      (WeatherService.WeatherQuery.lon query) as [lo|]; try (left; cbn; eauto; fail).
    right. eexists. cbn [fst snd].
    split; [by destruct (net _ _)|]. split; [by destruct (net _ _)|].
    cbn. eauto 10.
Qed.

Lemma built_query_fetch st q net sent :
  (buildQuery st).1 = inr q ->
  WeatherService.fetchWeather net (with_apiKey q) sent
  = (net (length sent) (form_params (form st)), sent ++ [form_params (form st)]).
Proof.
  intros Hq.
  unfold buildQuery, Eff.bind, Eff.gets, Eff.throw, Eff.ret in Hq.
  unfold form_params.
  unfold WeatherService.fetchWeather, Eff.bind, Eff.try_catch,
    WeatherService.client_get, Eff.throw, Eff.ret.
  destruct (Form.mode (form st)).
  - destruct (JS.truthy (JS.trim (Form.city (form st)))) eqn:E; [|done].
    cbn in Hq. injection Hq as <-. cbn.
    rewrite !trim_idempotent, E.
    by destruct (net _ _).
  - destruct (JS.truthy (JS.trim (Form.zip (form st)))) eqn:E; [|done].
    cbn in Hq. injection Hq as <-. cbn.
    rewrite !trim_idempotent, E.
    destruct (JS.truthy (JS.trim (Form.zipCountry (form st)))) eqn:Ec; cbn;
      rewrite ?Ec, ?trim_idempotent; by destruct (net _ _).
  - destruct (JS.Number_isNaN _ || JS.Number_isNaN _); [done|].
    cbn in Hq. injection Hq as <-. cbn.
    by destruct (net _ _).
Qed.

Lemma refresh_query_of_built st q weather :
  (buildQuery st).1 = inr q ->
  refresh_query (query_item q weather) = with_apiKey q.
Proof.
  intros Hq.
  unfold buildQuery, Eff.bind, Eff.gets, Eff.throw, Eff.ret in Hq.
  destruct (Form.mode (form st)).
  - destruct (JS.truthy (JS.trim (Form.city (form st)))); [|done].
    cbn in Hq. by injection Hq as <-.
  - destruct (JS.truthy (JS.trim (Form.zip (form st)))); [|done].
    cbn in Hq. by injection Hq as <-.
  - destruct (JS.Number_isNaN _ || JS.Number_isNaN _); [done|].
    cbn in Hq. by injection Hq as <-.
Qed.

(** X2. The fetch that [refreshAll] makes for an entry that [handleAdd]
    built from a valid form, whatever weather it holds by then, passes the
    validation of [fetchWeather] and calls the client with the params of the
    request that added it. *)
Theorem refresh_repeats_the_add st q weather weather' net sent :
  (buildQuery st).1 = inr q ->
  WeatherService.fetchWeather net
    (refresh_query (SavedForecast.with_weather (query_item q weather) weather')) sent
  = (net (length sent) (form_params (form st)), sent ++ [form_params (form st)]).
Proof.
  intros Hq.
  change (refresh_query (SavedForecast.with_weather (query_item q weather) weather'))
    with (refresh_query (query_item q weather)).
  rewrite (refresh_query_of_built st q weather Hq).
  by apply built_query_fetch.
Qed.

End Requests.

Section AddRemoveRefresh.
Import Types App.
Variable env : Env.

Lemma buildQuery_invalid st :
  form_is_valid (form st) = false ->
  (buildQuery st).1 = inl (Thrown.Error (validation_message (Form.mode (form st)))).
Proof.
  unfold form_is_valid, buildQuery, Eff.bind, Eff.gets, Eff.throw, Eff.ret.
  destruct (Form.mode (form st)); cbn; intros H.
  - by rewrite H.
  - by rewrite H.
  - apply negb_false_iff in H. by rewrite H.
Qed.

Lemma buildQuery_valid st :
  form_is_valid (form st) = true -> exists q, (buildQuery st).1 = inr q.
Proof.
  unfold form_is_valid, buildQuery, Eff.bind, Eff.gets, Eff.throw, Eff.ret.
  destruct (Form.mode (form st)); cbn; intros H.
  - rewrite H. cbn. eauto.
  - rewrite H. cbn. eauto.
  - apply negb_true_iff in H. rewrite H. cbn. eauto.
Qed.

(** X3. [handleAdd] on a form that fails the checks of [buildQuery]
    makes no call to the client and leaves collection, storage, form and
    modal as they were; it pushes one [danger] notification with the message
    of the mode and ends with [isLoading] false. *)
Theorem invalid_form_is_rejected_locally st :
  form_is_valid (form st) = false ->
  let st' := Eff.exec (handleAdd env) st in
  requests st' = requests st
  /\ savedForecasts st' = savedForecasts st
  /\ localStorage st' = localStorage st
  /\ form st' = form st
  /\ modalOpen st' = modalOpen st
  /\ isLoading st' = false
  /\ notifications st'
     = notifications st
       ++ [notification env danger (validation_message (Form.mode (form st))) st].
Proof.
  intros Hinvalid. cbv zeta. unfold Eff.exec. rewrite handleAdd_run. cbn [snd].
  rewrite (buildQuery_invalid st Hinvalid). rewrite notify_run. cbn.
  repeat split. unfold notification. cbn. by destruct (Form.mode (form st)).
Qed.

(** X4. [handleAdd] on a valid form whose request is rejected makes that
    one call, leaves collection, storage, form and modal as they were (the
    user can retry), pushes one [danger] notification with the text of
    [parseError] and ends with [isLoading] false. *)
Theorem rejected_add_keeps_the_form st e :
  form_is_valid (form st) = true ->
  network env (length (requests st)) (form_params (form st)) = inl e ->
  let st' := Eff.exec (handleAdd env) st in
  requests st' = requests st ++ [form_params (form st)]
  /\ savedForecasts st' = savedForecasts st
  /\ localStorage st' = localStorage st
  /\ form st' = form st
  /\ modalOpen st' = modalOpen st
  /\ isLoading st' = false
  /\ notifications st' = notifications st ++ [notification env danger (parseError e) st].
Proof.
  intros Hvalid Hnet. cbv zeta. unfold Eff.exec. rewrite handleAdd_run. cbn [snd].
  destruct (buildQuery_valid st Hvalid) as [q Hq]. rewrite Hq.
  cbv zeta. rewrite (built_query_fetch st q _ _ Hq), Hnet. cbn [fst snd]. rewrite notify_run. cbn.
  done.
Qed.

(** X5. [handleAdd] on a valid form whose request resolves upserts the
    item, makes that one call, writes the new collection to storage, puts
    the form back to its blank state, closes the modal, ends with
    [isLoading] false, reads the clock twice and pushes one [success]
    notification. *)
Theorem successful_add_effects st raw :
  form_is_valid (form st) = true ->
  network env (length (requests st)) (form_params (form st)) = inr raw ->
  let st' := Eff.exec (handleAdd env) st in
  exists q,
    (buildQuery st).1 = inr q
    /\ savedForecasts st'
       = upsert (query_item q (mapWeather_at (clock env (clock_reads st)) raw))
           (savedForecasts st)
    /\ requests st' = requests st ++ [form_params (form st)]
    /\ localStorage st'
       = (Storage.persistForecasts (savedForecasts st') (localStorage st)).2
    /\ form st' = blank_form
    /\ modalOpen st' = false
    /\ isLoading st' = false
    /\ clock_reads st' = S (S (clock_reads st))
    /\ notifications st'
       = notifications st
         ++ [ {| AppNotification.id := JS.of_Z (clock env (S (clock_reads st)));
                 AppNotification.type := success;
                 AppNotification.text := "Forecast added." |} ].
Proof.
  intros Hvalid Hnet. cbv zeta. unfold Eff.exec. rewrite handleAdd_run. cbn [snd].
  destruct (buildQuery_valid st Hvalid) as [q Hq]. rewrite Hq. exists q.
  cbv zeta. rewrite (built_query_fetch st q _ _ Hq), Hnet. cbn [fst snd].
  rewrite persistForecasts_run, notify_run. done.
Qed.

Lemma filter_not_key k (l : list SavedForecast.t) :
  List.filter (fun f => negb (key_is k f)) l
  = filter (fun f => SavedForecast.key f <> k) l.
Proof.
  apply filter_bool_Prop. intros f. rewrite negb_true_iff. apply key_is_false.
Qed.

(** X6. [removeForecast] keeps, in order, the entries whose key is not
    the given one, so that no entry has that key afterwards; for a key that
    is absent the collection is unchanged.  In both cases it calls [setItem]
    once with the resulting collection, pushes one [info] notification and
    makes no request. *)
Theorem removeForecast_effects key st :
  let st' := Eff.exec (removeForecast env key) st in
  savedForecasts st'
  = filter (fun f => SavedForecast.key f <> key) (savedForecasts st)
  /\ (key ∉ map SavedForecast.key (savedForecasts st'))
  /\ ((key ∉ map SavedForecast.key (savedForecasts st)) ->
      savedForecasts st' = savedForecasts st)
  /\ notifications st'
     = notifications st ++ [notification env info "Forecast removed." st]
  /\ localStorage st'
     = (Storage.persistForecasts (savedForecasts st') (localStorage st)).2
  /\ Storage.setItem_calls (localStorage st')
     = S (Storage.setItem_calls (localStorage st))
  /\ requests st' = requests st.
Proof.
  cbv zeta. unfold Eff.exec. rewrite removeForecast_run. cbn [snd].
  rewrite persistForecasts_run, notify_run. cbn.
  rewrite filter_not_key.
  split; [done|]. split.
  { intros (f & Hk & Hf)%list_elem_of_fmap.
    apply list_elem_of_filter in Hf as [Hne _]. by apply Hne. }
  split.
  { intros Habsent.
    induction (savedForecasts st) as [|x l IH]; [done|].
    rewrite filter_cons. cbn in Habsent.
    apply not_elem_of_cons in Habsent as [Hx Hl].
    destruct (decide (SavedForecast.key x <> key)) as [_|Heq];
      [|exfalso; apply Heq; intros E; by apply Hx].
    by rewrite IH. }
  split; [done|]. split; [done|]. split; [|done].
  unfold Storage.persistForecasts, Eff.try_catch, Storage.setItem.
  by destruct (Storage.writable (localStorage st)).
Qed.

Lemma refreshed_with_identity items raws reads :
  length raws = length items ->
  Forall2 same_identity items (refreshed_with env items raws reads).
Proof.
  revert raws reads. induction items as [|x items IH]; intros [|r raws] reads Hlen;
    try done; cbn in *; try by constructor.
  constructor; [by repeat split | apply IH; lia].
Qed.

(** X7. [refreshAll], whether it succeeds or fails, keeps the number
    and the order of the entries and, for each entry, its key, mode, value,
    country, latitude and longitude; it does not touch the form, the modal,
    [isLoading], the search term or the current page. *)
Theorem refreshAll_keeps_identity showMessage st :
  let st' := Eff.exec (refreshAll env showMessage) st in
  Forall2 same_identity (savedForecasts st) (savedForecasts st')
  /\ form st' = form st /\ modalOpen st' = modalOpen st
  /\ isLoading st' = isLoading st /\ searchTerm st' = searchTerm st
  /\ currentPage st' = currentPage st.
Proof.
  cbv zeta. split.
  - destruct (refreshAll_cases env showMessage st)
      as [[_ ->] | [(_ & _ & -> & _) | (_ & raws & Hraws & -> & _)]].
    + apply Forall2_same_length_lookup_2; [done|].
      intros i x y Hx Hy. simplify_eq. by repeat split.
    + apply Forall2_same_length_lookup_2; [done|].
      intros i x y Hx Hy. simplify_eq. by repeat split.
    + apply refreshed_with_identity.
      rewrite <- (fetch_batch_length env (savedForecasts st) (requests st)), Hraws.
      by rewrite length_map.
  - unfold Eff.exec. rewrite refreshAll_run. cbn [snd]. cbv zeta.
    destruct (Z.of_nat (length (savedForecasts st)) =? 0); [done|].
    destruct (Promise_all _) as [e|refreshed].
    + rewrite notify_run. done.
    + rewrite persistForecasts_run. destruct showMessage; [rewrite notify_run|]; done.
Qed.

End AddRemoveRefresh.

Section Pages.
Import Types App.

Lemma totalPages_set_currentPage p st : totalPages (set_currentPage p st) = totalPages st.
Proof. reflexivity. Qed.

Lemma totalPages_positive st : 1 <= totalPages st.
Proof. rewrite totalPages_spec. lia. Qed.

(** X8. When the current page is within [1 .. totalPages], it is still
    so after the previous link, the next link and the link of any listed
    page; the watcher leaves it alone; and the page shown is not empty
    unless the filtered sequence is. *)
Theorem pagination_stays_in_range st :
  page_in_range st ->
  page_in_range (previousPage st)
  /\ page_in_range (nextPage st)
  /\ (forall page, page ∈ page_numbers st -> page_in_range (goToPage page st))
  /\ watch_filtered st = st
  /\ (filtered st <> [] -> paged st <> []).
Proof.
  unfold page_in_range. intros [Hlo Hhi].
  pose proof (totalPages_positive st) as Hpos.
  split; [|split; [|split; [|split]]].
  - unfold previousPage. rewrite totalPages_set_currentPage. cbn. lia.
  - unfold nextPage. rewrite totalPages_set_currentPage. cbn. lia.
  - intros page Hpage. unfold goToPage. rewrite totalPages_set_currentPage. cbn.
    unfold page_numbers in Hpage.
    apply list_elem_of_fmap in Hpage as (n & -> & Hn).
    apply elem_of_seq in Hn. lia.
  - unfold watch_filtered.
    destruct (Z.gtb_spec (currentPage st) (totalPages st)); [lia | done].
  - intros Hne. rewrite paged_spec by done.
    rewrite totalPages_spec in Hhi.
    pose proof (ceil_div_10 (Z.of_nat (length (filtered st))) ltac:(lia)) as Hc.
    assert (0 < length (filtered st))%nat as Hlen
      by (destruct (filtered st); [done | cbn; lia]).
    assert (0 < length (take 10 (drop (Z.to_nat (10 * (currentPage st - 1)))
                                     (filtered st))))%nat as Hpage
      by (rewrite length_take, length_drop; unfold PAGE_SIZE in *; lia).
    intros Hnil. rewrite Hnil in Hpage. cbn in Hpage. lia.
Qed.

(** X9. Once the watcher of the filtered sequence has run, a current
    page that was at least 1 is within [1 .. totalPages]. *)
Theorem watcher_restores_range st :
  1 <= currentPage st -> page_in_range (watch_filtered st).
Proof.
  intros Hlo. unfold page_in_range, watch_filtered.
  pose proof (totalPages_positive st) as Hpos.
  destruct (Z.gtb_spec (currentPage st) (totalPages st)).
  - rewrite totalPages_set_currentPage. cbn. lia.
  - lia.
Qed.

End Pages.

Section Notifications.
Import Types App.
Variable env : Env.

Lemma number_eqb_refl z : JS.eqb (JS.of_Z z) (JS.of_Z z) = true.
Proof. unfold JS.eqb, JS.of_Z, JS.align. cbn. apply Z.eqb_refl. Qed.

(** X10. The timer of a notification removes every notification whose
    id is the clock reading that [notify] took, so also older ones raised at
    the same reading; when no older one has that id, the list is back to
    what it was before [notify]. *)
Theorem notification_expires type text st :
  let id := clock env (clock_reads st) in
  let st1 := Eff.exec (notify env type text) st in
  notifications (notification_timeout id st1)
  = List.filter (fun n => negb (JS.eqb (AppNotification.id n) (JS.of_Z id)))
      (notifications st)
  /\ (Forall (fun n => JS.eqb (AppNotification.id n) (JS.of_Z id) = false)
        (notifications st) ->
      notifications (notification_timeout id st1) = notifications st).
Proof.
  cbv zeta. unfold Eff.exec. rewrite notify_run. cbn [snd].
  unfold notification_timeout. cbn [notifications set_notifications set_clock_reads].
  rewrite List.filter_app. unfold notification.
  cbn [List.filter AppNotification.id].
  rewrite number_eqb_refl. cbn [negb]. rewrite app_nil_r.
  split; [done|]. intros Hfresh.
  induction Hfresh as [|n l Hn _ IH]; [done|].
  cbn. by rewrite Hn, IH.
Qed.

End Notifications.

Section StorageInvariant.
Import Types App.
Variable env : Env.

Lemma persist_keeps_health items ls :
  healthy ls -> healthy (Storage.persistForecasts items ls).2.
Proof.
  intros [Hr Hw]. unfold healthy, Storage.persistForecasts, Eff.try_catch, Storage.setItem.
  rewrite Hw. by cbn.
Qed.

(** A command leaves collection and storage as they were, or writes the
    collection that it leaves. *)
Lemma run_command_storage c st :
  let st' := Eff.exec (run_command env c) st in
  (savedForecasts st' = savedForecasts st /\ localStorage st' = localStorage st)
  \/ localStorage st'
     = (Storage.persistForecasts (savedForecasts st') (localStorage st)).2.
Proof.
  cbv zeta. destruct c as [f | key | showMessage].
  - rewrite run_command_Add. unfold Eff.exec. rewrite handleAdd_run. cbn [snd]. cbv zeta.
    destruct (buildQuery (set_form f st)).1 as [e|q]; [left; by rewrite notify_run|].
    destruct (WeatherService.fetchWeather _ _ _).1 as [e|raw];
      [left; by rewrite notify_run|].
    right. by rewrite persistForecasts_run, notify_run.
  - right. unfold Eff.exec. cbn [run_command]. rewrite removeForecast_run. cbn [snd].
    by rewrite persistForecasts_run, notify_run.
  - cbn [run_command].
    destruct (refreshAll_cases env showMessage st)
      as [[_ ->] | [(_ & _ & -> & -> & _) | (_ & raws & _ & _ & -> & _)]]; auto.
Qed.

(** X11. On a healthy storage, if loading gives the current collection
    then it still does after any sequence of adds, removes and refreshes,
    whatever the network answers: a handler that changes the collection
    writes it, and one that fails changes neither. *)
Theorem storage_follows_collection commands st :
  healthy (localStorage st) ->
  stored_is_current st ->
  stored_is_current (run_commands env commands st).
Proof.
  revert st. induction commands as [|c cs IH]; intros st Hhealthy Hcurrent; [done|].
  cbn [run_commands].
  destruct (run_command_storage c st) as [[Hitems Hls] | Hls].
  - apply IH; [by rewrite Hls|].
    unfold stored_is_current. by rewrite Hls, Hitems.
  - apply IH.
    + rewrite Hls. by apply persist_keeps_health.
    + unfold stored_is_current. rewrite Hls. by apply persist_then_load.
Qed.

Lemma equal_but_storage (a b : State) :
  notifications a = notifications b -> modalOpen a = modalOpen b ->
  isLoading a = isLoading b -> searchTerm a = searchTerm b ->
  currentPage a = currentPage b -> savedForecasts a = savedForecasts b ->
  form a = form b -> requests a = requests b -> clock_reads a = clock_reads b ->
  exists ls', a = set_localStorage ls' b.
Proof.
  destruct a, b. cbn. intros. subst. eexists. unfold set_localStorage. cbn. reflexivity.
Qed.

Lemma run_command_ignores_storage c st ls :
  exists ls',
    Eff.exec (run_command env c) (set_localStorage ls st)
    = set_localStorage ls' (Eff.exec (run_command env c) st).
Proof.
  destruct c as [f | key | showMessage].
  - rewrite !run_command_Add. unfold Eff.exec. rewrite !handleAdd_run. cbn [snd]. cbv zeta.
    rewrite (buildQuery_form (set_form f (set_localStorage ls st)) (set_form f st) eq_refl).
    cbn [requests set_form set_localStorage savedForecasts clock_reads].
    destruct (buildQuery (set_form f st)).1 as [e|q].
    { rewrite !notify_run. by apply equal_but_storage. }
    destruct (WeatherService.fetchWeather _ _ _) as [[e|raw] sent]; cbn [fst snd].
    { rewrite !notify_run. by apply equal_but_storage. }
    rewrite !persistForecasts_run, !notify_run. by apply equal_but_storage.
  - unfold Eff.exec. cbn [run_command]. rewrite !removeForecast_run. cbn [snd]. cbv zeta.
    rewrite !persistForecasts_run, !notify_run. by apply equal_but_storage.
  - unfold Eff.exec. cbn [run_command]. rewrite !refreshAll_run. cbn [snd]. cbv zeta.
    cbn [requests set_localStorage savedForecasts clock_reads].
    destruct (Z.of_nat (length (savedForecasts st)) =? 0); [by apply equal_but_storage|].
    destruct (Promise_all _) as [e|refreshed].
    { rewrite !notify_run. by apply equal_but_storage. }
    rewrite !persistForecasts_run.
    destruct showMessage; [rewrite !notify_run|]; by apply equal_but_storage.
Qed.

(** X12. What a sequence of commands does to everything but the storage
    does not depend on the storage: its contents, and whether its reads and
    writes fail, never change the collection, the notifications or the
    requests. *)
Theorem collection_ignores_storage commands st ls :
  exists ls',
    run_commands env commands (set_localStorage ls st)
    = set_localStorage ls' (run_commands env commands st).
Proof.
  revert st ls. induction commands as [|c cs IH]; intros st ls; [by exists ls|].
  cbn [run_commands].
  destruct (run_command_ignores_storage c st ls) as [ls1 ->].
  apply IH.
Qed.

End StorageInvariant.

Section Loading.
Import Types Storage.

(** X13. [loadSavedForecasts] never throws and never changes the
    storage.  It returns the elements of the stored array when the storage
    can be read and holds a JSON array, and the empty list in every other
    case. *)
Theorem loadSavedForecasts_tolerant ls :
  exists elements,
    loadSavedForecasts ls = (inr elements, ls)
    /\ (elements <> [] ->
        readable ls = true
        /\ entries ls !! STORAGE_KEY = Some (Json.Doc (Json.Arr elements)))
    /\ (forall stored,
          readable ls = true ->
          entries ls !! STORAGE_KEY = Some (Json.Doc (Json.Arr stored)) ->
          elements = stored).
Proof.
  unfold loadSavedForecasts, Eff.try_catch, Eff.bind, getItem, Eff.ret, Eff.lift_result.
  destruct (readable ls); [|exists []; by repeat split].
  destruct (entries ls !! STORAGE_KEY) as [[j|raw]|]; cbn.
  - destruct j; eexists; (split; [done|]); split; try done; intros; by simplify_eq.
  - destruct (JS.truthy raw); cbn; exists []; by repeat split.
  - exists []. by repeat split.
Qed.

Lemma number_round_trip x :
  Json.as_number (Some (Json.of_number x)) = Some x <-> JS.is_finite x = true.
Proof. destruct x as [|[]|m e]; cbn; split; congruence. Qed.

End Loading.

Section RoundTrip.
Import Types.

(** X14. An entry written by [JSON.stringify] reads back as itself
    exactly when all its numbers are finite. *)
Theorem round_trip_iff_finite (f : SavedForecast.t) :
  Json.to_SavedForecast (Json.of_SavedForecast f) = Some f
  <-> finite_numbers f = true.
Proof.
  split; [|apply to_of_SavedForecast].
  destruct f as [key mode value country lat lon
                   [id name wcountry description icon temperature humidity wind
                      pressure sunrise sunset updatedAt]].
  unfold finite_numbers.
  cbn [SavedForecast.lat SavedForecast.lon SavedForecast.weather
    WeatherView.id WeatherView.temperature WeatherView.humidity WeatherView.wind
    WeatherView.pressure WeatherView.sunrise WeatherView.sunset WeatherView.updatedAt].
  intros H.
  destruct country, lat as [[| |]|], lon as [[| |]|]; cbn in H;
    rewrite SearchMode_text_inv in H; cbn in H; try discriminate;
    (destruct id; cbn in H; [discriminate..|]);
    (destruct temperature; cbn in H; [discriminate..|]);
    (destruct humidity; cbn in H; [discriminate..|]);
    (destruct wind; cbn in H; [discriminate..|]);
    (destruct pressure; cbn in H; [discriminate..|]);
    (destruct sunrise; cbn in H; [discriminate..|]);
    (destruct sunset; cbn in H; [discriminate..|]);
    (destruct updatedAt; cbn in H; [discriminate..|]);
    reflexivity.
Qed.

End RoundTrip.

Section Narrowing.
Import Types App.

Lemma substring_of_trans a b c : substring_of a b -> substring_of b c -> substring_of a c.
Proof.
  intros (b1 & a1 & ->) (b2 & a2 & ->).
  exists (b2 +:+ b1), (a1 +:+ a2). by rewrite !append_assoc.
Qed.

Lemma substring_of_empty a : substring_of a "" -> a = "".
Proof.
  intros (before & after & H). destruct before; [|done]. by destruct a.
Qed.

Lemma filter_sublist_imp {A} (p q : A -> bool) (l : list A) :
  (forall x, q x = true -> p x = true) ->
  sublist (List.filter q l) (List.filter p l).
Proof.
  intros Himp. induction l as [|x l IH]; [done|]. cbn.
  destruct (q x) eqn:Hq.
  - rewrite (Himp x Hq). by constructor.
  - destruct (p x); [by constructor | done].
Qed.

Lemma filter_sublist_all {A} (p : A -> bool) (l : list A) : sublist (List.filter p l) l.
Proof.
  induction l as [|x l IH]; [done|]. cbn. destruct (p x); by constructor.
Qed.

(** X15. When the normalised term of one search occurs in the normalised
    term of another, the results of the second are a subsequence of the
    results of the first; and the results of any search are a subsequence of
    the collection. *)
Theorem search_narrows st t1 t2 :
  substring_of (JS.toLowerCase (JS.trim t1)) (JS.toLowerCase (JS.trim t2)) ->
  sublist (filtered (set_searchTerm t2 st)) (filtered (set_searchTerm t1 st))
  /\ sublist (filtered (set_searchTerm t1 st)) (savedForecasts st).
Proof.
  intros Hsub. unfold filtered. cbn [searchTerm set_searchTerm savedForecasts].
  destruct (JS.toLowerCase (JS.trim t1)) as [|c1 n1] eqn:E1.
  - cbn [JS.truthy negb]. split; [|done].
    destruct (negb (JS.truthy _)); [done | apply filter_sublist_all].
  - destruct (JS.toLowerCase (JS.trim t2)) as [|c2 n2] eqn:E2.
    { by apply substring_of_empty in Hsub. }
    cbn [JS.truthy negb]. split; [|apply filter_sublist_all].
    apply filter_sublist_imp. intros f.
    rewrite !existsb_exists. intros (field & Hin & Hf). exists field. split; [done|].
    apply includes_spec. apply includes_spec in Hf.
    by apply (substring_of_trans _ (String c2 n2)).
Qed.

End Narrowing.

Section Keys.
Import Types App.
Variable env : Env.

(** X16. In coordinates mode, fields that are empty or blank pass
    [buildQuery]: [Number] of a blank string is 0, not [NaN], so the query is
    for latitude 0 and longitude 0 and its key is ["coords-0,0"]. *)
Theorem blank_coordinates_are_zero st :
  Form.mode (form st) = coords ->
  JS.trim (Form.lat (form st)) = "" ->
  JS.trim (Form.lon (form st)) = "" ->
  exists q,
    (buildQuery st).1 = inr q
    /\ Query.lat q = Some (JS.Finite 0 0)
    /\ Query.lon q = Some (JS.Finite 0 0)
    /\ query_key q = "coords-0,0".
Proof.
  intros Hmode Hlat Hlon.
  unfold buildQuery, Eff.bind, Eff.gets, Eff.ret. rewrite Hmode.
  unfold JS.Number_of_string. rewrite Hlat, Hlon. cbn.
  eexists. split; [done|]. by repeat split.
Qed.

Lemma built_item_key st q weather :
  (buildQuery st).1 = inr q -> key_is_derived (query_item q weather).
Proof.
  intros Hq. unfold key_is_derived.
  unfold buildQuery, Eff.bind, Eff.gets, Eff.throw, Eff.ret in Hq.
  destruct (Form.mode (form st)).
  - destruct (JS.trim (Form.city (form st))) eqn:E; cbn in Hq; [done|].
    injection Hq as <-. done.
  - destruct (JS.trim (Form.zip (form st))) eqn:E; cbn in Hq; [done|].
    injection Hq as <-. done.
  - destruct (JS.Number_isNaN _ || JS.Number_isNaN _); [done|].
    cbn in Hq. by injection Hq as <-.
Qed.

Lemma upsert_elem x item l : x ∈ upsert item l -> x = item \/ x ∈ l.
Proof.
  destruct (first_with_key (SavedForecast.key item) l)
    as [Hfresh | (l1 & old & l2 & -> & Hold & Hl1)].
  - rewrite upsert_fresh by done. intros [-> | H]%elem_of_cons; auto.
  - rewrite upsert_replace by done. rewrite !elem_of_app, !elem_of_cons.
    intros [H | [-> | H]]; auto.
Qed.

Lemma same_identity_derived olds news :
  Forall2 same_identity olds news ->
  Forall key_is_derived olds -> Forall key_is_derived news.
Proof.
  induction 1 as [|old new olds news (Hk & Hm & Hv & _) _ IH]; [done|].
  intros [Hold Holds]%Forall_cons. constructor; [|by apply IH].
  unfold key_is_derived in *. by rewrite Hk, Hm, Hv.
Qed.

Lemma run_command_keys_derived c st :
  Forall key_is_derived (savedForecasts st) ->
  Forall key_is_derived (savedForecasts (Eff.exec (run_command env c) st)).
Proof.
  intros Hst. destruct c as [f | key | showMessage].
  - rewrite run_command_Add.
    destruct (handleAdd_cases env (set_form f st))
      as [(e & _ & ->) | (q & raw & Hok & ->)]; [done|].
    apply Forall_forall. intros x [-> | Hx]%upsert_elem.
    + eapply built_item_key. by eapply add_outcome_query.
    + rewrite Forall_forall in Hst. by apply Hst.
  - unfold Eff.exec. cbn [run_command]. rewrite removeForecast_run. cbn [snd].
    rewrite persistForecasts_run, notify_run. cbn.
    apply Forall_forall. intros x Hx.
    apply list_elem_of_In, filter_In in Hx as [Hx _].
    rewrite Forall_forall in Hst. by apply Hst, list_elem_of_In.
  - cbn [run_command].
    pose proof (refreshAll_cases env showMessage st) as Hcases. cbv zeta in Hcases.
    destruct Hcases as [[_ ->] | [(_ & _ & -> & _) | (_ & raws & Hraws & -> & _)]]; [done..|].
    assert (length raws = length (savedForecasts st)) as Hlen.
    { rewrite <- (fetch_batch_length env (savedForecasts st) (requests st)), Hraws.
      by rewrite length_map. }
    pose proof (refreshed_with_identity env (savedForecasts st) raws (clock_reads st) Hlen)
      as Hid.
    by apply (same_identity_derived _ _ Hid).
Qed.

(** X17. In any collection built from the empty one, the key of every
    entry is [forecastKey] of its mode and value, and is in lower case. *)
Theorem keys_are_derived commands :
  Forall (fun f => key_is_derived f
                   /\ JS.toLowerCase (SavedForecast.key f) = SavedForecast.key f)
    (savedForecasts (run_commands env commands initial_state)).
Proof.
  assert (forall st, Forall key_is_derived (savedForecasts st) ->
                     Forall key_is_derived (savedForecasts (run_commands env commands st)))
    as H.
  { induction commands as [|c cs IH]; intros st Hst; [done|].
    cbn. apply IH. by apply run_command_keys_derived. }
  eapply Forall_impl; [apply H; constructor|].
  intros f Hf. split; [done|].
  rewrite Hf. unfold forecastKey. apply toLowerCase_idempotent.
Qed.

End Keys.

Section Collisions.
Import Types App.
Variable env : Env.

Lemma upsert_known_key item l :
  SavedForecast.key item ∈ map SavedForecast.key l ->
  map SavedForecast.key (upsert item l) = map SavedForecast.key l.
Proof.
  intros Hin.
  destruct (first_with_key (SavedForecast.key item) l)
    as [Hfresh | (l1 & old & l2 & -> & Hold & Hl1)].
  - by apply no_key_Forall in Hfresh.
  - rewrite upsert_replace by done. apply key_is_true in Hold.
    rewrite !map_app. cbn. by rewrite Hold.
Qed.

Lemma upsert_has_item item l : item ∈ upsert item l.
Proof.
  destruct (first_with_key (SavedForecast.key item) l)
    as [Hfresh | (l1 & old & l2 & -> & Hold & Hl1)].
  - rewrite upsert_fresh by done. apply elem_of_cons. by left.
  - rewrite upsert_replace by done. apply elem_of_app. right. apply elem_of_cons. by left.
Qed.

Lemma buildQuery_city st q :
  Form.mode (form st) = city ->
  (buildQuery st).1 = inr q ->
  query_key q = forecastKey city (JS.trim (Form.city (form st))).
Proof.
  intros Hmode. unfold buildQuery, Eff.bind, Eff.gets. rewrite Hmode.
  destruct (JS.trim (Form.city (form st))) eqn:E; cbn; [done|].
  intros [= <-]. done.
Qed.

(** X18. Two successful adds by city whose trimmed names differ only
    in case have the same key: the second leaves the keys of the collection
    as they were and its item is in the collection. *)
Theorem city_key_ignores_case st f1 f2 q1 raw1 q2 raw2 :
  Form.mode f1 = city -> Form.mode f2 = city ->
  JS.toLowerCase (JS.trim (Form.city f1)) = JS.toLowerCase (JS.trim (Form.city f2)) ->
  let st1 := Eff.exec (run_command env (Add f1)) st in
  let st2 := Eff.exec (run_command env (Add f2)) st1 in
  add_outcome env (set_form f1 st) = inr (q1, raw1) ->
  add_outcome env (set_form f2 st1) = inr (q2, raw2) ->
  query_key q2 = query_key q1
  /\ map SavedForecast.key (savedForecasts st2) = map SavedForecast.key (savedForecasts st1)
  /\ query_item q2 (mapWeather_at (clock env (clock_reads st1)) raw2) ∈ savedForecasts st2.
Proof.
  intros Hm1 Hm2 Hcase. cbv zeta. rewrite !run_command_Add. intros Hok1 Hok2.
  pose proof (buildQuery_city (set_form f1 st) q1 Hm1 (add_outcome_query _ _ _ _ Hok1)) as Hk1.
  pose proof (buildQuery_city
                (set_form f2 (Eff.exec (handleAdd env) (set_form f1 st))) q2 Hm2
                (add_outcome_query _ _ _ _ Hok2)) as Hk2.
  cbn [form set_form] in Hk1, Hk2.
  assert (query_key q2 = query_key q1) as Hk.
  { rewrite Hk1, Hk2. unfold forecastKey. rewrite !toLowerCase_app. by rewrite Hcase. }
  split; [done|].
  rewrite (handleAdd_success env _ q2 raw2 Hok2).
  cbn [savedForecasts set_form clock_reads].
  split; [|apply upsert_has_item].
  apply upsert_known_key.
  change (SavedForecast.key (query_item q2 ?w)) with (query_key q2). rewrite Hk.
  rewrite (handleAdd_success env _ q1 raw1 Hok1).
  apply list_elem_of_fmap.
  exists (query_item q1 (mapWeather_at (clock env (clock_reads (set_form f1 st))) raw1)).
  split; [done | apply upsert_has_item].
Qed.

(** X19. No handler lets an exception escape: whatever the form, the
    network and the storage do, [handleAdd], [removeForecast] and
    [refreshAll] return normally. *)
Theorem handlers_never_throw c st : (run_command env c st).1 = inr tt.
Proof.
  destruct c as [f | key | showMessage]; cbn [run_command].
  - unfold Eff.bind, Eff.modify. by rewrite handleAdd_run.
  - by rewrite removeForecast_run.
  - by rewrite refreshAll_run.
Qed.

End Collisions.

(** ** Instances *)

Lemma refresh_repeats_the_add_witness :
  let st := App.set_form (Demo.city_form " London ") App.initial_state in
  WeatherService.fetchWeather Demo.known_places
    (App.refresh_query
       (Types.SavedForecast.with_weather
          (App.query_item (Demo.city_query "London")
             (App.mapWeather_at 1700000000000 (Demo.response "London")))
          (App.mapWeather_at 1700000300000 (Demo.response "London")))) []
  = (inr (Demo.response "London"), [form_params (Demo.city_form " London ")]).
Proof.
  cbv zeta.
  rewrite (refresh_repeats_the_add
             (App.set_form (Demo.city_form " London ") App.initial_state)
             (Demo.city_query "London") _ _ Demo.known_places []
             ltac:(by_evaluation)).
  by_evaluation.
Defined.

Lemma invalid_form_is_rejected_locally_witness :
  let st := App.set_form (Demo.zip_form "   " "us") App.initial_state in
  let st' := Eff.exec (App.handleAdd Demo.env) st in
  App.requests st' = []
  /\ map Types.AppNotification.text (App.notifications st') = ["Enter a ZIP/postal code."]
  /\ App.form st' = Demo.zip_form "   " "us".
Proof.
  cbv zeta.
  destruct (invalid_form_is_rejected_locally Demo.env
              (App.set_form (Demo.zip_form "   " "us") App.initial_state)
              ltac:(by_evaluation)) as (Hr & _ & _ & Hf & _ & _ & Hn).
  rewrite Hr, Hf, Hn. repeat split.
Defined.

Lemma rejected_add_keeps_the_form_witness :
  let st := App.set_form (Demo.city_form "Atlantis") App.initial_state in
  let st' := Eff.exec (App.handleAdd Demo.env) st in
  App.savedForecasts st' = []
  /\ map Types.AppNotification.text (App.notifications st') = ["[404] city not found"]
  /\ App.form st' = Demo.city_form "Atlantis".
Proof.
  cbv zeta.
  destruct (rejected_add_keeps_the_form Demo.env
              (App.set_form (Demo.city_form "Atlantis") App.initial_state)
              Demo.not_found ltac:(by_evaluation) ltac:(by_evaluation))
    as (_ & Hs & _ & Hf & _ & _ & Hn).
  rewrite Hs, Hf, Hn. repeat split.
Defined.

Lemma successful_add_effects_witness :
  let st := App.set_modalOpen true
              (App.set_form (Demo.city_form "London") App.initial_state) in
  let st' := Eff.exec (App.handleAdd Demo.env) st in
  App.form st' = blank_form /\ App.modalOpen st' = false
  /\ map Types.AppNotification.text (App.notifications st') = ["Forecast added."].
Proof.
  cbv zeta.
  destruct (successful_add_effects Demo.env
              (App.set_modalOpen true
                 (App.set_form (Demo.city_form "London") App.initial_state))
              (Demo.response "London") ltac:(by_evaluation) ltac:(by_evaluation))
    as (q & _ & _ & _ & _ & Hf & Hm & _ & _ & Hn).
  rewrite Hf, Hm, Hn. repeat split.
Defined.

Lemma removeForecast_effects_witness :
  let st := Demo.with_entries ["Paris"; "London"] in
  App.savedForecasts (Eff.exec (App.removeForecast Demo.env "city-rome") st)
  = App.savedForecasts st.
Proof.
  cbv zeta.
  destruct (removeForecast_effects Demo.env "city-rome"
              (Demo.with_entries ["Paris"; "London"])) as (_ & _ & H & _).
  apply H. vm_compute. intros H'.
  apply elem_of_cons in H' as [H' | H']; [discriminate|].
  apply elem_of_cons in H' as [H' | H']; [discriminate|].
  by apply elem_of_nil in H'.
Defined.

Lemma storage_follows_collection_witness :
  stored_is_current
    (App.run_commands Demo.env
       [App.Add (Demo.city_form "London"); App.Add (Demo.city_form "Atlantis");
        App.Add (Demo.zip_form "10001" "us"); App.Remove "city-london"; App.Refresh true]
       App.initial_state).
Proof.
  apply storage_follows_collection.
  - split; reflexivity.
  - reflexivity.
Defined.

Lemma notification_expires_witness :
  let st := Eff.exec (App.removeForecast Demo.env "city-london")
              (Demo.with_entries ["London"]) in
  App.notifications
    (App.notification_timeout (App.clock Demo.env (App.clock_reads st))
       (Eff.exec (App.notify Demo.env Types.success "Forecasts refreshed.") st))
  = App.notifications st.
Proof.
  cbv zeta.
  destruct (notification_expires Demo.env Types.success "Forecasts refreshed."
              (Eff.exec (App.removeForecast Demo.env "city-london")
                 (Demo.with_entries ["London"]))) as [_ H].
  apply H. repeat constructor.
Defined.

Lemma pagination_stays_in_range_witness :
  let st := App.set_currentPage 3 (App.set_savedForecasts Demo.demo_collection App.initial_state) in
  page_in_range (App.nextPage st) /\ page_in_range (App.previousPage st)
  /\ App.paged st <> [].
Proof.
  cbv zeta.
  destruct (pagination_stays_in_range
              (App.set_currentPage 3
                 (App.set_savedForecasts Demo.demo_collection App.initial_state)))
    as (Hprev & Hnext & _ & _ & Hpage).
  - split; by_evaluation || (vm_compute; discriminate).
  - split; [exact Hnext|]. split; [exact Hprev|].
    apply Hpage. vm_compute. discriminate.
Defined.

Lemma watcher_restores_range_witness :
  page_in_range
    (App.watch_filtered
       (App.set_currentPage 3
          (Eff.exec (App.removeForecast Demo.env "city-20")
             (App.set_savedForecasts (take 21 Demo.demo_collection) App.initial_state)))).
Proof. apply watcher_restores_range. vm_compute. discriminate. Defined.

Lemma loadSavedForecasts_tolerant_witness :
  let ls := (Storage.persistForecasts [Demo.entry "London" 1700000000000]
               App.empty_storage).2 in
  (Storage.loadSavedForecasts ls).1
  = inr [Json.of_SavedForecast (Demo.entry "London" 1700000000000)].
Proof.
  cbv zeta.
  destruct (loadSavedForecasts_tolerant
              (Storage.persistForecasts [Demo.entry "London" 1700000000000]
                 App.empty_storage).2) as (elements & -> & _ & H).
  cbn [fst]. f_equal. apply H; by_evaluation.
Defined.

Lemma round_trip_iff_finite_witness :
  Json.to_SavedForecast (Json.of_SavedForecast Demo.overflowed) <> Some Demo.overflowed
  /\ Json.to_SavedForecast (Json.of_SavedForecast (Demo.entry "London" 1700000000000))
     = Some (Demo.entry "London" 1700000000000).
Proof.
  split.
  - intros H. apply round_trip_iff_finite in H. vm_compute in H. discriminate.
  - apply round_trip_iff_finite. by_evaluation.
Defined.

Lemma search_narrows_witness :
  sublist (App.filtered (App.set_searchTerm " LOND" Demo.search_demo))
    (App.filtered (App.set_searchTerm "on " Demo.search_demo)).
Proof.
  apply (search_narrows Demo.search_demo "on " " LOND").
  exists "l", "d". by_evaluation.
Defined.

Lemma blank_coordinates_are_zero_witness :
  exists q,
    (App.buildQuery
       (App.set_form
          {| App.Form.mode := Types.coords; App.Form.city := ""; App.Form.zip := "";
             App.Form.zipCountry := "us"; App.Form.lat := ""; App.Form.lon := " " |}
          App.initial_state)).1 = inr q
    /\ App.Query.lat q = Some (JS.Finite 0 0)
    /\ App.Query.lon q = Some (JS.Finite 0 0)
    /\ App.query_key q = "coords-0,0".
Proof. apply blank_coordinates_are_zero; by_evaluation. Defined.

Lemma city_key_ignores_case_witness :
  let st1 := Eff.exec (App.run_command Demo.env (App.Add (Demo.city_form "London")))
               App.initial_state in
  let st2 := Eff.exec (App.run_command Demo.env (App.Add (Demo.city_form " LONDON "))) st1 in
  map Types.SavedForecast.key (App.savedForecasts st2) = ["city-london"].
Proof.
  cbv zeta.
  destruct (city_key_ignores_case Demo.env App.initial_state
              (Demo.city_form "London") (Demo.city_form " LONDON ")
              (Demo.city_query "London") (Demo.response "London")
              (Demo.city_query "LONDON") (Demo.response "LONDON")
              eq_refl eq_refl ltac:(by_evaluation) ltac:(by_evaluation)
              ltac:(by_evaluation)) as (_ & -> & _).
  by_evaluation.
Defined.
